(** * KoSpeech feature utilities: a shallow embedding of [utils/feature.py]

    The module has three functions.  [get_librosa_melspectrogram] and
    [get_librosa_mfcc] load an audio file, optionally strip silence, and hand
    the signal to the audio library; [spec_augment] zeroes random time and
    frequency spans of a feature tensor in place.

    Python state is threaded explicitly through a [world]: the file system,
    the heap of mutable tensors, the two process-wide random generators
    ([np.random] and [random]) and a trace of the calls that leave the module
    (file access, library calls, log lines, slice assignments).  A computation
    either returns a value or raises, and keeps the world it reached. *)

From Stdlib Require Import ZArith QArith List String Bool Lia.
From stdpp Require Import gmap strings list.

Local Open Scope string_scope.
Local Open Scope list_scope.
Local Open Scope Z_scope.

(** ** Values *)

(** Python floats are carried as the rationals they denote.  On feature
    values the module only copies, reorders and zeroes floats, and converts
    16-bit integers to floats, which binary64 does exactly; the one float
    computation of its own, the width drawn by [np.random.uniform], is
    rounded to binary64 where it is made. *)
Definition pyfloat := Q.

(** A two-dimensional array ([np.ndarray] or [torch.Tensor]) with its shape;
    [rows] is indexed by the first axis. *)
Record ndarray := mk_ndarray {
  shape0 : nat;
  shape1 : nat;
  rows : list (list pyfloat)
}.

Definition wf_ndarray (a : ndarray) : Prop :=
  length (rows a) = shape0 a /\ Forall (fun r => length r = shape1 a) (rows a).

Definition entry (a : ndarray) (i j : nat) : option pyfloat :=
  match rows a !! i with
  | Some r => r !! j
  | None => None
  end.

Inductive exn :=
| ValueError (msg : string)
| FileNotFoundError (path : string)
| OverflowError (msg : string)
| RuntimeError (msg : string).

Definition loc := positive.

(** Calls that leave the module, in program order. *)
Inductive event :=
| EvMemmap (path : string)
| EvLoad (path : string) (sr : Z)
| EvSplit (y : list pyfloat) (top_db : Z)
| EvMelspectrogram (y : list pyfloat) (sr n_mels n_fft hop_length : Z) (window : string)
| EvMfcc (y : list pyfloat) (sr hop_length n_mfcc n_fft : Z) (window : string)
| EvAmplitudeToDb (S : ndarray)
| EvLoggerInfo (msg : string)
| EvSetRows (t : loc) (start stop : Z)
| EvSetCols (t : loc) (start stop : Z).

(** A random generator: the stream of raw outputs its seed determines and the
    number of outputs consumed so far. *)
Record generator := mk_generator {
  draws : nat -> Z;
  consumed : nat
}.

Definition next_draw (g : generator) : Z := draws g (consumed g).
Definition advance (g : generator) : generator :=
  mk_generator (draws g) (S (consumed g)).

Record world := mk_world {
  files : gmap string (list Byte.byte);
  heap : gmap loc ndarray;
  np_random : generator;
  py_random : generator;
  trace : list event
}.

Definition set_heap (h : gmap loc ndarray) (w : world) : world :=
  mk_world (files w) h (np_random w) (py_random w) (trace w).
Definition set_np_random (g : generator) (w : world) : world :=
  mk_world (files w) (heap w) g (py_random w) (trace w).
Definition set_py_random (g : generator) (w : world) : world :=
  mk_world (files w) (heap w) (np_random w) g (trace w).
Definition emit (e : event) (w : world) : world :=
  mk_world (files w) (heap w) (np_random w) (py_random w) (trace w ++ [e]).

(** ** Computations *)

Inductive outcome (A : Type) :=
| Returns (a : A)
| Raises (e : exn).
Arguments Returns {A} a.
Arguments Raises {A} e.

Definition M (A : Type) : Type := world -> outcome A * world.

Definition ret {A} (a : A) : M A := fun w => (Returns a, w).
Definition raise {A} (e : exn) : M A := fun w => (Raises e, w).
Definition bind {A B} (m : M A) (f : A -> M B) : M B :=
  fun w => match m w with
           | (Returns a, w') => f a w'
           | (Raises e, w') => (Raises e, w')
           end.

Notation "x <- m ;; k" := (bind m (fun x => k))
  (at level 100, m at next level, right associativity).
Notation "m ;;; k" := (bind m (fun _ => k))
  (at level 100, right associativity).

(** [try: body except: handler] with a bare [except], which catches every
    exception. *)
Definition outcome_map {A B} (f : A -> B) (r : outcome A) : outcome B :=
  match r with
  | Returns a => Returns (f a)
  | Raises e => Raises e
  end.

Definition try_except {A} (body : M A) (handler : exn -> M A) : M A :=
  fun w => match body w with
           | (Returns a, w') => (Returns a, w')
           | (Raises e, w') => handler e w'
           end.

Definition tell (e : event) : M unit := fun w => (Returns tt, emit e w).

(** Lift a call into an external library: record it, then return or raise. *)
Definition extern {A} (e : event) (r : exn + A) : M A :=
  tell e ;;;
  match r with
  | inl x => raise x
  | inr a => ret a
  end.

Fixpoint repeat_m (n : nat) (body : M unit) : M unit :=
  match n with
  | O => ret tt
  | S k => body ;;; repeat_m k body
  end.

(** [for _ in range(n): body] *)
Definition for_range (n : Z) (body : M unit) : M unit :=
  repeat_m (Z.to_nat n) body.

(** ** Python slices *)

(** Adjustment of one bound of [a[start:stop]] over a length [n]: a negative
    bound counts from the end, and the result is clamped to [0, n]. *)
Definition slice_index (n i : Z) : Z :=
  if i <? 0 then Z.max 0 (i + n) else Z.min i n.

(** Whether index [i] is selected by [start:stop] on an axis of length [n]. *)
Definition in_slice (n start stop i : Z) : bool :=
  (slice_index n start <=? i) && (i <? slice_index n stop).

(** [y[start:stop]] on a one-dimensional array. *)
Definition py_slice {A} (y : list A) (start stop : Z) : list A :=
  let n := Z.of_nat (length y) in
  let lo := slice_index n start in
  let hi := slice_index n stop in
  take (Z.to_nat (hi - lo)) (drop (Z.to_nat lo) y).

(** [a[start:stop, :] = v] *)
Definition assign_rows (a : ndarray) (start stop : Z) (v : pyfloat) : ndarray :=
  mk_ndarray (shape0 a) (shape1 a)
    (imap (fun i r =>
             if in_slice (Z.of_nat (shape0 a)) start stop (Z.of_nat i)
             then map (fun _ => v) r else r)
          (rows a)).

(** [a[:, start:stop] = v] *)
Definition assign_cols (a : ndarray) (start stop : Z) (v : pyfloat) : ndarray :=
  mk_ndarray (shape0 a) (shape1 a)
    (map (imap (fun j x =>
                  if in_slice (Z.of_nat (shape1 a)) start stop (Z.of_nat j)
                  then v else x))
         (rows a)).

(** ** Tensors on the heap *)

Definition dangling {A} : M A := raise (RuntimeError "dangling tensor reference").

(** [feat.size(d)] *)
Definition tensor_size (feat : loc) (d : nat) : M Z :=
  fun w => match heap w !! feat with
           | Some a => (Returns (Z.of_nat (match d with O => shape0 a | _ => shape1 a end)), w)
           | None => dangling w
           end.

(** [feat[start:stop, :] = v], in place. *)
Definition setitem_rows (feat : loc) (start stop : Z) (v : pyfloat) : M unit :=
  fun w => match heap w !! feat with
           | Some a =>
               (Returns tt,
                emit (EvSetRows feat start stop)
                     (set_heap (<[feat := assign_rows a start stop v]> (heap w)) w))
           | None => dangling w
           end.

(** [feat[:, start:stop] = v], in place. *)
Definition setitem_cols (feat : loc) (start stop : Z) (v : pyfloat) : M unit :=
  fun w => match heap w !! feat with
           | Some a =>
               (Returns tt,
                emit (EvSetCols feat start stop)
                     (set_heap (<[feat := assign_cols a start stop v]> (heap w)) w))
           | None => dangling w
           end.

(** ** Randomness *)

Definition two53 : positive := 9007199254740992%positive.

(** Rounding to the nearest integer multiple of [q], ties to the even one. *)
Definition rne (a q : Z) : Z :=
  let f := a / q in
  let r := a mod q in
  if 2 * r <? q then f
  else if q <? 2 * r then f + 1
  else if Z.even f then f else f + 1.

(** Rounding of an integer to the 53 significant bits of a binary64 float,
    to nearest and ties to even.  A float [m * 2^e] with [e >= -53] is the
    integer [m * 2^(e + 53)] counted in units of [2^-53], so the same function
    rounds the dyadic fractions below. *)
Definition round53 (n : Z) : Z :=
  let a := Z.abs n in
  let s := Z.log2 a - 52 in
  if s <=? 0 then n else Z.sgn n * (rne a (2 ^ s) * 2 ^ s).

(** The number of low bits that rounding a non-negative integer drops. *)
Definition shift53 (a : Z) : Z := Z.log2 a - 52.

(** Whether [float(n)] exists: the rounded value is below [2^1024]. *)
Definition float_fits (n : Z) : bool := Z.abs (round53 n) <? 2 ^ 1024.

Definition overflow_error : exn :=
  OverflowError "int too large to convert to float".

(** [np.random.uniform(low=0.0, high=T)] for an [int] bound: the bound is
    converted to a float, which raises [OverflowError] when it does not fit,
    and the result is [0.0 + (high - 0.0) * u] in binary64, where [u] is a
    53-bit fraction [k / 2^53] in [0, 1) taken from the generator.  The
    subtraction and the addition are exact, the product is rounded. *)
Definition np_random_uniform (high : Z) : M Q :=
  fun w =>
    if float_fits high then
      let g := np_random w in
      let k := next_draw g mod Z.pos two53 in
      (Returns (round53 (round53 high * k) # two53), set_np_random (advance g) w)
    else raise overflow_error w.

(** [int(x)] on a float: truncation towards zero. *)
Definition py_int (x : Q) : Z := Z.quot (Qnum x) (Z.pos (Qden x)).

(** [random.randint(a, b)] is [randrange(a, b + 1)]: it raises on an empty
    range before touching the generator, and otherwise returns
    [a + randbelow(width)]. *)
Definition random_randint (a b : Z) : M Z :=
  fun w =>
    let width := b + 1 - a in
    if width <=? 0 then raise (ValueError "empty range for randrange()") w
    else
      let g := py_random w in
      (Returns (a + next_draw g mod width), set_py_random (advance g) w).

(** ** [spec_augment] *)

Definition spec_augment (feat : loc) (T F : Z) (time_mask_num freq_mask_num : Z) : M loc :=
  feat_size <- tensor_size feat 1 ;;
  seq_len <- tensor_size feat 0 ;;
  (* time mask *)
  for_range time_mask_num (
    t <- np_random_uniform T ;;
    let t := py_int t in
    t0 <- random_randint 0 (seq_len - t) ;;
    setitem_rows feat t0 (t0 + t) 0%Q) ;;;
  (* freq mask *)
  for_range freq_mask_num (
    f <- np_random_uniform F ;;
    let f := py_int f in
    f0 <- random_randint 0 (feat_size - f) ;;
    setitem_cols feat f0 (f0 + f) 0%Q) ;;;
  ret feat.

(** ** Files and arrays *)

(** A 16-bit pattern read as a signed integer ([dtype='h']). *)
Definition wrap16 (v : Z) : Z := if v <? 32768 then v else v - 65536.

(** The headerless 16-bit samples of a byte string, low byte first (the
    native order [dtype='h'] stands for on little-endian machines). *)
Fixpoint int16_le (bs : list Byte.byte) : list Z :=
  match bs with
  | lo :: hi :: rest =>
      wrap16 (Z.of_N (Byte.to_N lo) + 256 * Z.of_N (Byte.to_N hi)) :: int16_le rest
  | _ => []
  end.

(** [np.memmap(filepath, dtype='h', mode='r')]: fails on a missing file, on an
    empty file and on a file whose size is not a multiple of two bytes. *)
Definition np_memmap (filepath : string) : M (list Z) :=
  tell (EvMemmap filepath) ;;;
  fun w =>
    match files w !! filepath with
    | None => raise (FileNotFoundError filepath) w
    | Some bs =>
        if Nat.eqb (length bs) 0 then
          raise (ValueError "cannot mmap an empty file") w
        else if Nat.odd (length bs) then
          raise (ValueError "Size of available data is not a multiple of the data-type size.") w
        else ret (int16_le bs) w
    end.

Definition logger_info (msg : string) : M unit := tell (EvLoggerInfo msg).

(** [np.concatenate(arrays)] on one-dimensional arrays. *)
Definition np_concatenate {A} (arrays : list (list A)) : M (list A) :=
  match arrays with
  | [] => raise (ValueError "need at least one array to concatenate")
  | _ => ret (concat arrays)
  end.

(** [feat[:, ::-1]] *)
Definition flip_axis1 (a : ndarray) : ndarray :=
  mk_ndarray (shape0 a) (shape1 a) (map reverse (rows a)).

Fixpoint transpose_rows {A} (ncols : nat) (rs : list (list A)) : list (list A) :=
  match rs with
  | [] => replicate ncols []
  | r :: rs' => zip_with cons r (transpose_rows ncols rs')
  end.

(** [np.swapaxes(feat, 0, 1)], on the values. *)
Definition np_swapaxes (a : ndarray) : ndarray :=
  mk_ndarray (shape1 a) (shape0 a) (transpose_rows (shape1 a) (rows a)).

(** A numpy array as the module passes it on: its values and, for each axis,
    whether the view walks the memory of the array it was taken from
    backwards (a negative stride).  The arrays the audio library returns are
    freshly allocated and contiguous, with no backward axis. *)
Record view := mk_view {
  values : ndarray;
  backward0 : bool;
  backward1 : bool
}.

Definition fresh (a : ndarray) : view := mk_view a false false.

(** [feat[:, ::-1]]: a view, not a copy. *)
Definition view_reverse1 (v : view) : view :=
  mk_view (flip_axis1 (values v)) (backward0 v) (negb (backward1 v)).

(** [np.swapaxes(feat, 0, 1)]: a view, not a copy. *)
Definition view_swapaxes (v : view) : view :=
  mk_view (np_swapaxes (values v)) (backward1 v) (backward0 v).

(** Whether numpy flags a view with a backward axis as C-contiguous: it does
    when the view is empty, and when every backward axis has length one,
    since the stride of an axis of length one is not looked at; a backward
    axis of length two or more is never contiguous. *)
Definition backward_axes_trivial (v : view) : bool :=
  (shape0 (values v) =? 0)%nat || (shape1 (values v) =? 0)%nat ||
  ((negb (backward0 v) || (shape0 (values v) =? 1)%nat) &&
   (negb (backward1 v) || (shape1 (values v) =? 1)%nat)).

(** [np.ascontiguousarray(v)] returns its argument when it is flagged
    C-contiguous and a fresh C-ordered copy otherwise.  Only a result that
    keeps a backward axis matters below. *)
Definition np_ascontiguousarray (v : view) : view :=
  if (backward0 v || backward1 v) && backward_axes_trivial v then v
  else fresh (values v).

Definition negative_stride_error : exn :=
  ValueError "At least one stride in the given numpy array is negative".

(** A pure step that returns or raises. *)
Definition lift {A} (r : exn + A) : M A :=
  match r with
  | inl e => raise e
  | inr a => ret a
  end.

(** Sorted, pairwise disjoint spans inside [lo, n]. *)
Fixpoint ordered_spans (lo n : Z) (ivs : list (Z * Z)) : Prop :=
  match ivs with
  | [] => True
  | (s, e) :: rest => lo <= s /\ s <= e /\ e <= n /\ ordered_spans e n rest
  end.

(** ** The external collaborators

    The audio library and the tensor library are not part of the module.
    They are taken as an interface: the operations the module calls, each of
    which may raise. *)
Class External := {
  librosa_load : gmap string (list Byte.byte) -> string -> Z -> exn + list pyfloat;
  librosa_split : list pyfloat -> Z -> exn + list (Z * Z);
  librosa_melspectrogram :
    list pyfloat -> Z -> Z -> Z -> Z -> string -> exn + ndarray;
  librosa_mfcc :
    list pyfloat -> Z -> Z -> Z -> Z -> string -> exn + ndarray;
  librosa_amplitude_to_db : ndarray -> exn + ndarray;
  (** rounding of a double to single precision, as [torch.FloatTensor] does *)
  float32 : pyfloat -> pyfloat;
  (** the samples of a mono 16 kHz 16-bit WAV file *)
  wav_samples : list Byte.byte -> option (list Z)
}.

(** The part of the libraries' documented behaviour that the properties below
    rest on: the shapes of the arrays they return, the frame count
    [1 + len(y) // hop_length] of the centred short-time transform, the
    ordered in-range spans of [effects.split], and 16-bit WAV samples scaled
    by [1/32768] on loading. *)
Class Contract `{External} : Prop := {
  melspectrogram_shape : forall y sr n_mels n_fft hop win S,
    librosa_melspectrogram y sr n_mels n_fft hop win = inr S ->
    wf_ndarray S /\ Z.of_nat (shape0 S) = n_mels /\
    Z.of_nat (shape1 S) = 1 + Z.of_nat (length y) / hop;
  mfcc_shape : forall y sr hop n_mfcc n_fft win S,
    0 <= n_mfcc <= 128 ->
    librosa_mfcc y sr hop n_mfcc n_fft win = inr S ->
    wf_ndarray S /\ Z.of_nat (shape0 S) = n_mfcc /\
    Z.of_nat (shape1 S) = 1 + Z.of_nat (length y) / hop;
  amplitude_to_db_shape : forall S D,
    librosa_amplitude_to_db S = inr D ->
    shape0 D = shape0 S /\ shape1 D = shape1 S /\ (wf_ndarray S -> wf_ndarray D);
  split_spans : forall y top_db ivs,
    librosa_split y top_db = inr ivs ->
    ordered_spans 0 (Z.of_nat (length y)) ivs;
  load_wav_scaled : forall fs path bs xs,
    fs !! path = Some bs ->
    wav_samples bs = Some xs ->
    librosa_load fs path 16000 =
      inr (map (fun x => (inject_Z x / inject_Z 32768)%Q) xs)
}.

(** A file [np.memmap] can read as 16-bit samples. *)
Definition readable_pcm (w : world) (filepath : string) (bs : list Byte.byte) : Prop :=
  files w !! filepath = Some bs /\ length bs <> O /\ Nat.odd (length bs) = false.

Section Extractors.
Context `{External}.

(** The values of an array, each rounded to single precision. *)
Definition as_float32 (a : ndarray) : ndarray :=
  mk_ndarray (shape0 a) (shape1 a) (map (map float32) (rows a)).

(** [torch.FloatTensor(v)] on a numpy array: torch refuses an array with a
    negative stride, and otherwise copies its values as single-precision
    floats. *)
Definition torch_FloatTensor (v : view) : exn + ndarray :=
  if backward0 v || backward1 v then inl negative_stride_error
  else inr (as_float32 (values v)).

Definition call_load (filepath : string) (sr : Z) : M (list pyfloat) :=
  fun w => extern (EvLoad filepath sr) (librosa_load (files w) filepath sr) w.

(** Lines 59-61 and 112-114: the [del_silence] branch. *)
Definition strip_silence (signal : list pyfloat) : M (list pyfloat) :=
  non_silence_indices <- extern (EvSplit signal 30) (librosa_split signal 30) ;;
  np_concatenate
    (map (fun '(start, stop) => py_slice signal start stop) non_silence_indices).


(** Lines 59-70: what [get_librosa_melspectrogram] does once it holds a
    signal.  The early [return None] of the loading block leaves the
    function, so the rest of the body is the continuation of a successful
    load. *)
Definition melspectrogram_of_signal (signal : list pyfloat) (n_mels : Z)
    (del_silence input_reverse : bool) (mel_type : string) : M (option ndarray) :=
  signal <- (if del_silence then strip_silence signal else ret signal) ;;
  feat <- extern (EvMelspectrogram signal 16000 n_mels 400 160 "hamming")
                 (librosa_melspectrogram signal 16000 n_mels 400 160 "hamming") ;;
  feat <- (if String.eqb mel_type "log_mel"
           then extern (EvAmplitudeToDb feat) (librosa_amplitude_to_db feat)
           else ret feat) ;;
  let feat := fresh feat in
  let feat := if input_reverse then view_reverse1 feat else feat in
  tensor <- lift (torch_FloatTensor (np_ascontiguousarray (view_swapaxes feat))) ;;
  ret (Some tensor).

Definition get_librosa_melspectrogram (filepath : string) (n_mels : Z)
    (del_silence input_reverse : bool) (mel_type format : string)
    : M (option ndarray) :=
  if String.eqb format "pcm" then
    pcm <- try_except
             (pcm <- np_memmap filepath ;; ret (Some pcm))
             (fun _ => logger_info (filepath +:+ " Error Occur !!") ;;; ret None) ;;
    match pcm with
    | None => ret None
    | Some pcm =>
        melspectrogram_of_signal (map inject_Z pcm) n_mels
          del_silence input_reverse mel_type
    end
  else if String.eqb format "wav" then
    signal <- call_load filepath 16000 ;;
    melspectrogram_of_signal signal n_mels del_silence input_reverse mel_type
  else
    raise (ValueError "Invalid format !!").

(** Lines 112-120 of [get_librosa_mfcc]; the coefficient count passed to the
    library is the literal 33. *)
Definition mfcc_of_signal (signal : list pyfloat)
    (del_silence input_reverse : bool) : M (option ndarray) :=
  signal <- (if del_silence then strip_silence signal else ret signal) ;;
  feat <- extern (EvMfcc signal 16000 160 33 400 "hamming")
                 (librosa_mfcc signal 16000 160 33 400 "hamming") ;;
  let feat := fresh feat in
  let feat := if input_reverse then view_reverse1 feat else feat in
  tensor <- lift (torch_FloatTensor (np_ascontiguousarray (view_swapaxes feat))) ;;
  ret (Some tensor).

Definition get_librosa_mfcc (filepath : string) (n_mfcc : Z)
    (del_silence input_reverse : bool) (format : string)
    : M (option ndarray) :=
  if String.eqb format "pcm" then
    pcm <- try_except
             (pcm <- np_memmap filepath ;; ret (Some pcm))
             (fun _ => logger_info (filepath +:+ " Error Occur !!") ;;; ret None) ;;
    match pcm with
    | None => ret None
    | Some pcm => mfcc_of_signal (map inject_Z pcm) del_silence input_reverse
    end
  else if String.eqb format "wav" then
    signal <- call_load filepath 16000 ;;
    mfcc_of_signal signal del_silence input_reverse
  else
    raise (ValueError "Invalid format !!").

(** What the loading block hands to the rest of the body. *)
Definition loaded (filepath format : string) (w : world)
    (signal : list pyfloat) (w1 : world) : Prop :=
  (format = "pcm" /\
   exists bs, readable_pcm w filepath bs /\
              signal = map inject_Z (int16_le bs) /\
              w1 = emit (EvMemmap filepath) w) \/
  (format = "wav" /\
   librosa_load (files w) filepath 16000 = inr signal /\
   w1 = emit (EvLoad filepath 16000) w).

End Extractors.

(** ** Vocabulary of the properties *)

(** The span a slice assignment names lies inside the tensor. *)
Definition write_in_bounds (feat : loc) (a : ndarray) (ev : event) : Prop :=
  match ev with
  | EvSetRows l start stop => l = feat /\ 0 <= start /\ stop <= Z.of_nat (shape0 a)
  | EvSetCols l start stop => l = feat /\ 0 <= start /\ stop <= Z.of_nat (shape1 a)
  | _ => False
  end.

(** Entry [(i, j)] lies in the time span [start, stop) of a row assignment or
    in the frequency span [start, stop) of a column assignment of the trace. *)
Definition in_span (i j : Z) (ev : event) : bool :=
  match ev with
  | EvSetRows _ start stop => (start <=? i) && (i <? stop)
  | EvSetCols _ start stop => (start <=? j) && (j <? stop)
  | _ => false
  end.

Definition masked (masks : list event) (i j : nat) : bool :=
  existsb (in_span (Z.of_nat i) (Z.of_nat j)) masks.

(** The same, with the bounds read the way Python reads a slice. *)
Definition in_py_span (a : ndarray) (i j : Z) (ev : event) : bool :=
  match ev with
  | EvSetRows _ start stop => in_slice (Z.of_nat (shape0 a)) start stop i
  | EvSetCols _ start stop => in_slice (Z.of_nat (shape1 a)) start stop j
  | _ => false
  end.

Definition py_masked (a : ndarray) (masks : list event) (i j : nat) : bool :=
  existsb (in_py_span a (Z.of_nat i) (Z.of_nat j)) masks.

(** A span with a non-negative width. *)
Definition span_ordered (ev : event) : Prop :=
  match ev with
  | EvSetRows _ start stop | EvSetCols _ start stop => start <= stop
  | _ => True
  end.

(** The width [int(np.random.uniform(0, bound))] that a world's next numpy
    draw yields. *)
Definition sampled_width (bound : Z) (w : world) : Z :=
  Z.quot (round53 (round53 bound * (next_draw (np_random w) mod Z.pos two53)))
         (Z.pos two53).

(** One iteration of each loop of [spec_augment]. *)
Definition time_mask (feat : loc) (T seq_len : Z) : M unit :=
  t <- np_random_uniform T ;;
  let t := py_int t in
  t0 <- random_randint 0 (seq_len - t) ;;
  setitem_rows feat t0 (t0 + t) 0%Q.

Definition freq_mask (feat : loc) (F feat_size : Z) : M unit :=
  f <- np_random_uniform F ;;
  let f := py_int f in
  f0 <- random_randint 0 (feat_size - f) ;;
  setitem_cols feat f0 (f0 + f) 0%Q.

(** The invariant of [spec_augment].  Relative to the world [w0] and the
    tensor [a] the call started from: the
    file system and every other tensor are untouched, the trace has grown by
    slice assignments on [feat] only, each inside the tensor, and every entry
    is its original value unless a recorded slice selects it, in which case it
    is zero. *)
Definition aug_inv (w0 : world) (feat : loc) (a : ndarray) (T F : Z) (w : world) : Prop :=
  files w = files w0 /\
  (forall l, l <> feat -> heap w !! l = heap w0 !! l) /\
  exists (a' : ndarray) (masks : list event),
    heap w !! feat = Some a' /\
    trace w = trace w0 ++ masks /\
    shape0 a' = shape0 a /\ shape1 a' = shape1 a /\
    Forall (write_in_bounds feat a) masks /\
    (0 <= T -> 0 <= F -> Forall span_ordered masks) /\
    forall i j,
      entry a' i j =
      option_map (fun x => if py_masked a masks i j then 0%Q else x) (entry a i j).

(** The seed whose every draw is the largest 53-bit fraction. *)
Definition widest_draws : generator :=
  mk_generator (fun _ => Z.pos two53 - 1) 0.

(** Reversal of the first axis of a time-major feature matrix. *)
Definition reverse_time (a : ndarray) : ndarray :=
  mk_ndarray (shape0 a) (shape1 a) (reverse (rows a)).

(** A matrix of the audio library (channels by frames) whose reversed,
    transposed view numpy still flags as contiguous: it is empty or has a
    single frame. *)
Definition single_step (D : ndarray) : bool :=
  (shape1 D =? 0)%nat || (shape0 D =? 0)%nat || (shape1 D =? 1)%nat.

(** What [input_reverse=True] makes of the outcome of the same call with
    [input_reverse=False]: a returned matrix comes back with its time steps
    reversed if it has more than one, and is refused by torch if it has one;
    anything else is unchanged. *)
Definition reverse_outcome (r : outcome (option ndarray)) : outcome (option ndarray) :=
  match r with
  | Returns (Some a) =>
      if (shape0 a =? 1)%nat then Raises negative_stride_error
      else Returns (Some (reverse_time a))
  | _ => r
  end.

(** The widths [int(np.random.uniform(0, bound))] can take: [0 .. bound-1]
    for a positive bound, [0] for a zero bound, [bound+1 .. 0] for a negative
    one. *)
Definition width_within (bound t : Z) : Prop :=
  Z.min 0 (bound + 1) <= t <= Z.max 0 (bound - 1).

(** A time mask on [feat] whose width the bound [T] allows, and likewise a
    frequency mask. *)
Definition row_mask (feat : loc) (T : Z) (ev : event) : Prop :=
  match ev with
  | EvSetRows l start stop => l = feat /\ width_within T (stop - start)
  | _ => False
  end.

Definition col_mask (feat : loc) (F : Z) (ev : event) : Prop :=
  match ev with
  | EvSetCols l start stop => l = feat /\ width_within F (stop - start)
  | _ => False
  end.

(** Where [spec_augment] stands after [nt] time masks and [nf] frequency
    masks: each generator has been advanced once per mask on its unchanged
    stream, the trace has grown by the time masks followed by the frequency
    masks, and the tensor has kept its shape and stayed rectangular. *)
Definition aug_progress (w0 : world) (feat : loc) (a : ndarray) (T F : Z)
    (nt nf : nat) (w : world) : Prop :=
  draws (np_random w) = draws (np_random w0) /\
  consumed (np_random w) = (consumed (np_random w0) + nt + nf)%nat /\
  draws (py_random w) = draws (py_random w0) /\
  consumed (py_random w) = (consumed (py_random w0) + nt + nf)%nat /\
  exists (a' : ndarray) (rmasks cmasks : list event),
    heap w !! feat = Some a' /\
    shape0 a' = shape0 a /\ shape1 a' = shape1 a /\
    (wf_ndarray a -> wf_ndarray a') /\
    trace w = trace w0 ++ rmasks ++ cmasks /\
    length rmasks = nt /\ length cmasks = nf /\
    Forall (row_mask feat T) rmasks /\ Forall (col_mask feat F) cmasks.

(** The [ValueError] of [random.randint] on an empty range; the interpreter
    appends the arguments of the call to this text. *)
Definition empty_range : exn := ValueError "empty range for randrange()".

(** [w'] differs from [w] at most by events appended to the trace. *)
Definition same_store (w w' : world) : Prop :=
  files w' = files w /\ heap w' = heap w /\
  np_random w' = np_random w /\ py_random w' = py_random w /\
  exists evs, trace w' = trace w ++ evs.

(** A computation whose only effect is on the trace. *)
Definition traces_only {A} (m : M A) : Prop :=
  forall w, same_store w (snd (m w)).

(** ** A reference implementation of the collaborators

    A small executable stand-in for the libraries, used to run the module on
    concrete inputs: a WAV file is a 44-byte header followed by 16-bit
    samples, silence is the run of leading zero samples, and a feature matrix
    of the contracted shape is filled with a value that identifies its row
    and frame. *)
Module Reference.

Definition wav_samples (bs : list Byte.byte) : option (list Z) :=
  if (44 <=? length bs)%nat then Some (int16_le (drop 44 bs)) else None.

Definition load (fs : gmap string (list Byte.byte)) (path : string) (sr : Z)
    : exn + list pyfloat :=
  match fs !! path with
  | None => inl (FileNotFoundError path)
  | Some bs =>
      match wav_samples bs with
      | Some xs => inr (map (fun x => (inject_Z x / inject_Z 32768)%Q) xs)
      | None => inl (RuntimeError "unknown audio format")
      end
  end.

Fixpoint leading_silence (y : list pyfloat) : nat :=
  match y with
  | x :: rest => if Qeq_bool x 0 then S (leading_silence rest) else O
  | [] => O
  end.

Definition split (y : list pyfloat) (top_db : Z) : exn + list (Z * Z) :=
  inr [(Z.of_nat (leading_silence y), Z.of_nat (length y))].

Definition frames (y : list pyfloat) (hop : Z) : nat :=
  Z.to_nat (1 + Z.of_nat (length y) / hop).

Definition features (y : list pyfloat) (n hop : Z) : exn + ndarray :=
  if (n <? 0) || (hop <=? 0) then inl (ValueError "invalid parameter")
  else
    inr (mk_ndarray (Z.to_nat n) (frames y hop)
           (map (fun m => map (fun t => inject_Z (Z.of_nat (m + 100 * t)))
                              (seq 0 (frames y hop)))
                (seq 0 (Z.to_nat n)))).

Definition melspectrogram (y : list pyfloat) (sr n_mels n_fft hop : Z)
    (win : string) : exn + ndarray := features y n_mels hop.

Definition mfcc (y : list pyfloat) (sr hop n_mfcc n_fft : Z)
    (win : string) : exn + ndarray := features y n_mfcc hop.

Definition amplitude_to_db (S : ndarray) : exn + ndarray := inr S.

End Reference.

Definition reference : External := {|
  librosa_load := Reference.load;
  librosa_split := Reference.split;
  librosa_melspectrogram := Reference.melspectrogram;
  librosa_mfcc := Reference.mfcc;
  librosa_amplitude_to_db := Reference.amplitude_to_db;
  float32 := fun x => x;
  wav_samples := Reference.wav_samples
|}.

(** ** A sample world

    A 3 x 2 tensor at location 1; a PCM file of 160 zero samples followed by
    the samples 4660 and -1, and the same samples behind a WAV header; a numpy
    generator whose every fraction is one half. *)
Definition sample_tensor : ndarray :=
  mk_ndarray 3 2 [[1%Q; 2%Q]; [3%Q; 4%Q]; [5%Q; 6%Q]].

Definition sample_pcm : list Byte.byte :=
  replicate 320 Byte.x00 ++ [Byte.x34; Byte.x12; Byte.xff; Byte.xff].

Definition sample_wav : list Byte.byte := replicate 44 Byte.x00 ++ sample_pcm.

Definition sample_world : world :=
  mk_world
    (<["a.pcm" := sample_pcm]> (<["a.wav" := sample_wav]> ∅))
    (<[1%positive := sample_tensor]> ∅)
    (mk_generator (fun _ => 4503599627370496) 0)
    (mk_generator (fun _ => 1) 0)
    [].

(** Two more collaborators: one whose silence split finds no span, and one
    whose every audio computation raises. *)
Definition spanless : External := {|
  librosa_load := Reference.load;
  librosa_split := fun _ _ => inr [];
  librosa_melspectrogram := Reference.melspectrogram;
  librosa_mfcc := Reference.mfcc;
  librosa_amplitude_to_db := Reference.amplitude_to_db;
  float32 := fun x => x;
  wav_samples := Reference.wav_samples
|}.

Definition faulty : External := {|
  librosa_load := Reference.load;
  librosa_split := fun _ _ => inl (RuntimeError "split");
  librosa_melspectrogram := fun _ _ _ _ _ _ => inl (RuntimeError "melspectrogram");
  librosa_mfcc := fun _ _ _ _ _ _ => inl (RuntimeError "mfcc");
  librosa_amplitude_to_db := Reference.amplitude_to_db;
  float32 := fun x => x;
  wav_samples := Reference.wav_samples
|}.

(** And one that splits and computes the spectrogram as the reference does,
    but whose MFCC computation and conversion to decibels raise. *)
Definition faulty_features : External := {|
  librosa_load := Reference.load;
  librosa_split := Reference.split;
  librosa_melspectrogram := Reference.melspectrogram;
  librosa_mfcc := fun _ _ _ _ _ _ => inl (RuntimeError "mfcc");
  librosa_amplitude_to_db := fun _ => inl (RuntimeError "amplitude_to_db");
  float32 := fun x => x;
  wav_samples := Reference.wav_samples
|}.

(** A world with an empty file, a one-byte file, and a two-sample PCM file
    that starts with a non-zero sample. *)
Definition odd_world : world :=
  mk_world
    (<["empty.pcm" := []]>
       (<["odd.pcm" := [Byte.x01]]>
          (<["loud.pcm" := [Byte.x34; Byte.x12; Byte.xff; Byte.xff]]> ∅)))
    ∅
    (mk_generator (fun _ => 0) 0)
    (mk_generator (fun _ => 0) 0)
    [].

(** * Properties *)

(** ** Monad and loop reasoning *)

Lemma bind_returns {A B} (m : M A) (f : A -> M B) w a w' :
  m w = (Returns a, w') -> bind m f w = f a w'.
Proof. intros E. unfold bind. now rewrite E. Qed.

Lemma bind_run {A B} (m : M A) (f : A -> M B) w :
  bind m f w =
  match m w with
  | (Returns a, w') => f a w'
  | (Raises e, w') => (Raises e, w')
  end.
Proof. reflexivity. Qed.

Lemma bind_raises {A B} (m : M A) (f : A -> M B) w e w' :
  m w = (Raises e, w') -> bind m f w = (Raises e, w').
Proof. intros E. unfold bind. now rewrite E. Qed.

(** A property of worlds that every iteration keeps holds after the loop,
    whether the loop completes or an iteration raises. *)
Lemma repeat_m_invariant (P : world -> Prop) (body : M unit) :
  (forall w, P w -> P (snd (body w))) ->
  forall n w, P w -> P (snd (repeat_m n body w)).
Proof.
  intros Hbody n. induction n as [|n IH]; intros w Hw; simpl.
  - exact Hw.
  - unfold bind. specialize (Hbody w Hw).
    destruct (body w) as [[[]|e] w1]; simpl in *.
    + now apply IH.
    + exact Hbody.
Qed.

Lemma spec_augment_unfold feat T F tn fn :
  spec_augment feat T F tn fn =
  (feat_size <- tensor_size feat 1 ;;
   seq_len <- tensor_size feat 0 ;;
   for_range tn (time_mask feat T seq_len) ;;;
   for_range fn (freq_mask feat F feat_size) ;;;
   ret feat).
Proof. reflexivity. Qed.

(** ** Slices *)

Lemma slice_index_id n i : 0 <= i <= n -> slice_index n i = i.
Proof. unfold slice_index. intros Hi. destruct (Z.ltb_spec i 0); lia. Qed.

Lemma in_slice_interval n start stop i :
  0 <= start -> start <= stop -> stop <= n ->
  in_slice n start stop i = (start <=? i) && (i <? stop).
Proof.
  intros H0 H1 H2. unfold in_slice.
  rewrite !slice_index_id by lia. reflexivity.
Qed.

Lemma entry_assign_rows a start stop v i j :
  entry (assign_rows a start stop v) i j =
  option_map (fun x => if in_slice (Z.of_nat (shape0 a)) start stop (Z.of_nat i)
                       then v else x)
             (entry a i j).
Proof.
  unfold entry, assign_rows; simpl. rewrite list_lookup_imap.
  destruct (rows a !! i) as [r|]; simpl; [|reflexivity].
  destruct (in_slice _ _ _ _).
  - rewrite list_lookup_fmap. now destruct (r !! j).
  - now destruct (r !! j).
Qed.

Lemma entry_assign_cols a start stop v i j :
  entry (assign_cols a start stop v) i j =
  option_map (fun x => if in_slice (Z.of_nat (shape1 a)) start stop (Z.of_nat j)
                       then v else x)
             (entry a i j).
Proof.
  unfold entry, assign_cols; simpl. rewrite list_lookup_fmap.
  destruct (rows a !! i) as [r|]; simpl; [|reflexivity].
  rewrite list_lookup_imap. now destruct (r !! j).
Qed.

(** ** Random draws *)

Lemma rne_bounds a q : a / q <= rne a q <= a / q + 1.
Proof.
  unfold rne. destruct (2 * (a mod q) <? q); [lia|].
  destruct (q <? 2 * (a mod q)); [lia|]. destruct (Z.even (a / q)); lia.
Qed.

Lemma rne_exact a q : 0 < q -> a mod q = 0 -> rne a q = a / q.
Proof.
  intros Hq Hr. unfold rne. rewrite Hr.
  destruct (Z.ltb_spec (2 * 0) q); [reflexivity | lia].
Qed.

Lemma rne_err a q : 0 < q -> 2 * Z.abs (rne a q * q - a) <= q.
Proof.
  intros Hq. pose proof (Z.div_mod a q ltac:(lia)) as Ha.
  pose proof (Z.mod_pos_bound a q Hq) as Hr. unfold rne.
  destruct (Z.ltb_spec (2 * (a mod q)) q); [nia|].
  destruct (Z.ltb_spec q (2 * (a mod q))); [nia|].
  destruct (Z.even (a / q)); nia.
Qed.

Lemma rne_mono a b q : 0 < q -> a <= b -> rne a q <= rne b q.
Proof.
  intros Hq Hab.
  pose proof (Z.div_le_mono a b q Hq Hab) as Hf.
  destruct (Z.eq_dec (a / q) (b / q)) as [E|N].
  - pose proof (Z.div_mod a q ltac:(lia)) as Ha.
    pose proof (Z.div_mod b q ltac:(lia)) as Hb.
    assert (Hr : a mod q <= b mod q) by nia.
    unfold rne. rewrite E.
    destruct (Z.ltb_spec (2 * (a mod q)) q), (Z.ltb_spec (2 * (b mod q)) q);
      try lia;
      destruct (Z.ltb_spec q (2 * (a mod q))), (Z.ltb_spec q (2 * (b mod q)));
      try lia; destruct (Z.even (b / q)); lia.
  - pose proof (rne_bounds a q). pose proof (rne_bounds b q). lia.
Qed.

Lemma rne_scale a q c :
  0 < q -> 0 < c -> rne (a * c) (q * c) = rne a q.
Proof.
  intros Hq Hc. unfold rne.
  rewrite Z.div_mul_cancel_r by lia.
  rewrite Z.mul_mod_distr_r by lia.
  destruct (Z.ltb_spec (2 * (a mod q)) q), (Z.ltb_spec (2 * (a mod q * c)) (q * c));
    try nia; try reflexivity.
  destruct (Z.ltb_spec q (2 * (a mod q))), (Z.ltb_spec (q * c) (2 * (a mod q * c)));
    try nia; reflexivity.
Qed.

Lemma shift53_small a : a < 2 ^ 53 -> shift53 a <= 0.
Proof.
  intros Ha. unfold shift53. destruct (Z.le_gt_cases a 0) as [H0|H0].
  - rewrite Z.log2_nonpos by lia. lia.
  - apply Z.log2_lt_pow2 in Ha; lia.
Qed.

Lemma shift53_spec a :
  0 < shift53 a -> 2 ^ (52 + shift53 a) <= a < 2 ^ (53 + shift53 a).
Proof.
  unfold shift53. intros Hs.
  assert (0 < a).
  { destruct (Z.le_gt_cases a 0) as [H0|H0]; [|lia].
    rewrite Z.log2_nonpos in Hs by lia. lia. }
  pose proof (Z.log2_spec a H) as [H1 H2].
  replace (52 + (Z.log2 a - 52)) with (Z.log2 a) by lia.
  replace (53 + (Z.log2 a - 52)) with (Z.succ (Z.log2 a)) by lia. lia.
Qed.

Lemma round53_abs_eq a :
  0 <= a ->
  round53 a = if shift53 a <=? 0 then a else rne a (2 ^ shift53 a) * 2 ^ shift53 a.
Proof.
  intros Ha. unfold round53, shift53. rewrite Z.abs_eq by lia.
  destruct (Z.leb_spec (Z.log2 a - 52) 0); [reflexivity|].
  assert (0 < a).
  { destruct (Z.eq_dec a 0) as [->|]; [simpl in *; lia | lia]. }
  rewrite Z.sgn_pos by lia. lia.
Qed.

Lemma round53_odd n : round53 (- n) = - round53 n.
Proof.
  unfold round53. rewrite Z.abs_opp, Z.sgn_opp.
  destruct (Z.log2 (Z.abs n) - 52 <=? 0); lia.
Qed.

Lemma round53_small n : Z.abs n < 2 ^ 53 -> round53 n = n.
Proof.
  intros Hn. unfold round53.
  pose proof (shift53_small (Z.abs n) Hn) as Hs. unfold shift53 in Hs.
  destruct (Z.leb_spec (Z.log2 (Z.abs n) - 52) 0); [reflexivity | lia].
Qed.

Lemma pow2_pos s : 0 <= s -> 0 < 2 ^ s.
Proof. intros. apply Z.pow_pos_nonneg; lia. Qed.

Lemma round53_big_bounds a :
  0 < shift53 a ->
  2 ^ (52 + shift53 a) <= rne a (2 ^ shift53 a) * 2 ^ shift53 a <= 2 ^ (53 + shift53 a).
Proof.
  intros Hs. pose proof (shift53_spec a Hs) as [H1 H2].
  set (s := shift53 a) in *. pose proof (pow2_pos s ltac:(lia)) as Hq.
  rewrite Z.pow_add_r in H1, H2 |- * by lia.
  rewrite (Z.pow_add_r 2 53 s) by lia.
  pose proof (rne_bounds a (2 ^ s)) as [Hl Hu].
  assert (2 ^ 52 <= a / 2 ^ s) by (apply Z.div_le_lower_bound; lia).
  assert (a / 2 ^ s < 2 ^ 53) by (apply Z.div_lt_upper_bound; lia).
  split; nia.
Qed.

Lemma round53_nonneg a : 0 <= a -> 0 <= round53 a.
Proof.
  intros Ha. rewrite round53_abs_eq by lia.
  destruct (Z.leb_spec (shift53 a) 0); [lia|].
  pose proof (round53_big_bounds a ltac:(lia)) as [Hl _].
  pose proof (pow2_pos (52 + shift53 a) ltac:(lia)). lia.
Qed.

(** relative error *)
Lemma round53_err a : 0 <= a -> Z.abs (round53 a - a) * 2 ^ 53 <= a.
Proof.
  intros Ha. rewrite round53_abs_eq by lia.
  destruct (Z.leb_spec (shift53 a) 0) as [Hs|Hs].
  - rewrite Z.sub_diag. simpl Z.abs. lia.
  - pose proof (shift53_spec a Hs) as [H1 _].
    set (s := shift53 a) in *. pose proof (pow2_pos s ltac:(lia)) as Hq.
    pose proof (rne_err a (2 ^ s) Hq) as He.
    rewrite Z.pow_add_r in H1 by lia.
    change (2 ^ 53) with (2 * 2 ^ 52). nia.
Qed.

Lemma round53_mono a b : 0 <= a -> a <= b -> round53 a <= round53 b.
Proof.
  intros Ha Hab. rewrite !round53_abs_eq by lia.
  assert (Hsab : shift53 a <= shift53 b).
  { unfold shift53. pose proof (Z.log2_le_mono a b Hab). lia. }
  destruct (Z.leb_spec (shift53 a) 0) as [Hsa|Hsa];
    destruct (Z.leb_spec (shift53 b) 0) as [Hsb|Hsb]; try lia.
  - pose proof (round53_big_bounds b Hsb) as [Hl _].
    pose proof (shift53_spec b Hsb) as [H1 _].
    assert (a < 2 ^ 53).
    { unfold shift53 in Hsa. destruct (Z.le_gt_cases a 0); [|apply Z.log2_lt_pow2; lia].
      pose proof (pow2_pos 53 ltac:(lia)). lia. }
    assert (2 ^ 53 <= 2 ^ (52 + shift53 b)) by (apply Z.pow_le_mono_r; lia).
    lia.
  - destruct (Z.eq_dec (shift53 a) (shift53 b)) as [E|N].
    + rewrite E. pose proof (pow2_pos (shift53 b) ltac:(lia)).
      pose proof (rne_mono a b (2 ^ shift53 b) ltac:(lia) Hab). nia.
    + pose proof (round53_big_bounds a Hsa) as [_ Hu].
      pose proof (round53_big_bounds b Hsb) as [Hl _].
      assert (2 ^ (53 + shift53 a) <= 2 ^ (52 + shift53 b))
        by (apply Z.pow_le_mono_r; lia).
      lia.
Qed.

(** representable numbers are fixed *)
Lemma round53_representable m j :
  0 <= m <= 2 ^ 53 -> 0 <= j -> round53 (m * 2 ^ j) = m * 2 ^ j.
Proof.
  intros Hm Hj. pose proof (pow2_pos j Hj) as Hpj.
  rewrite round53_abs_eq by nia.
  destruct (Z.leb_spec (shift53 (m * 2 ^ j)) 0) as [Hs|Hs]; [reflexivity|].
  pose proof (shift53_spec _ Hs) as [H1 H2].
  set (s := shift53 (m * 2 ^ j)) in *.
  pose proof (pow2_pos s ltac:(lia)) as Hq.
  assert (Hdiv : (m * 2 ^ j) mod 2 ^ s = 0).
  { destruct (Z.eq_dec m (2 ^ 53)) as [->|Hne].
    - rewrite <- Z.pow_add_r in H1, H2 |- * by lia.
      assert (s <= 53 + j).
      { destruct (Z.le_gt_cases s (53 + j)); [assumption|].
        assert (2 ^ (52 + s) <= 2 ^ (53 + j)) by lia.
        apply Z.pow_le_mono_r_iff in H0; lia. }
      replace (53 + j) with ((53 + j - s) + s) by lia.
      rewrite Z.pow_add_r by lia. apply Z.mod_mul. lia.
    - assert (s <= j).
      { destruct (Z.le_gt_cases s j); [assumption|].
        assert (2 ^ (52 + s) < 2 ^ (53 + j)).
        { rewrite (Z.pow_add_r 2 53 j) by lia. nia. }
        apply Z.pow_lt_mono_r_iff in H0; lia. }
      replace j with ((j - s) + s) by lia.
      rewrite Z.pow_add_r by lia. rewrite Z.mul_assoc. apply Z.mod_mul. lia. }
  rewrite rne_exact by assumption.
  pose proof (Z.div_mod (m * 2 ^ j) (2 ^ s) ltac:(lia)). lia.
Qed.

Lemma round53_idem a : 0 <= a -> round53 (round53 a) = round53 a.
Proof.
  intros Ha. rewrite (round53_abs_eq a) by lia.
  destruct (Z.leb_spec (shift53 a) 0) as [Hs|Hs].
  - rewrite round53_abs_eq by lia.
    destruct (Z.leb_spec (shift53 a) 0); [reflexivity | lia].
  - pose proof (shift53_spec a Hs) as [H1 H2].
    set (s := shift53 a) in *. pose proof (pow2_pos s ltac:(lia)) as Hq.
    apply round53_representable; [|lia].
    pose proof (rne_bounds a (2 ^ s)) as [Hl Hu].
    rewrite Z.pow_add_r in H1, H2 by lia.
    assert (0 <= a / 2 ^ s) by (apply Z.div_pos; lia).
    assert (a / 2 ^ s < 2 ^ 53) by (apply Z.div_lt_upper_bound; lia).
    lia.
Qed.

Lemma round53_scale a j : 0 <= a -> 0 <= j -> round53 (a * 2 ^ j) = round53 a * 2 ^ j.
Proof.
  intros Ha Hj. pose proof (pow2_pos j Hj) as Hpj.
  rewrite (round53_abs_eq a) by lia.
  destruct (Z.leb_spec (shift53 a) 0) as [Hs|Hs].
  - apply round53_representable; [|lia].
    unfold shift53 in Hs. destruct (Z.le_gt_cases a 0).
    + pose proof (pow2_pos 53 ltac:(lia)). lia.
    + assert (a < 2 ^ 53) by (apply Z.log2_lt_pow2; lia). lia.
  - assert (0 < a).
    { destruct (Z.le_gt_cases a 0) as [H0|H0]; [|lia].
      unfold shift53 in Hs. rewrite Z.log2_nonpos in Hs by lia. lia. }
    rewrite round53_abs_eq by nia.
    assert (Hsj : shift53 (a * 2 ^ j) = shift53 a + j).
    { unfold shift53. rewrite Z.log2_mul_pow2 by lia. lia. }
    rewrite Hsj.
    destruct (Z.leb_spec (shift53 a + j) 0); [lia|].
    rewrite Z.pow_add_r by lia.
    rewrite rne_scale by (try apply pow2_pos; lia). lia.
Qed.

(** The rounded product stays below the bound, whatever the bound. *)
Lemma rounded_product_below T k :
  0 < T -> 0 <= k < 2 ^ 53 ->
  0 <= round53 (round53 T * k) < T * 2 ^ 53.
Proof.
  intros HT Hk. pose proof (round53_nonneg T ltac:(lia)) as HTf.
  set (Tf := round53 T) in *.
  assert (Hx : 0 <= Tf * k) by nia.
  pose proof (round53_nonneg _ Hx) as HP. split; [exact HP|].
  destruct (Z.lt_ge_cases (round53 (Tf * k)) (T * 2 ^ 53)) as [|Hge];
    [assumption|exfalso].
  pose proof (round53_err _ Hx) as He.
  pose proof (round53_mono (T * 2 ^ 53) (round53 (Tf * k)) ltac:(nia) Hge) as Hm.
  rewrite round53_idem, round53_scale in Hm by lia. fold Tf in Hm.
  change (2 ^ 53) with 9007199254740992 in *. nia.
Qed.

Lemma sampled_width_within bound w : width_within bound (sampled_width bound w).
Proof.
  unfold width_within, sampled_width.
  pose proof (Z.mod_pos_bound (next_draw (np_random w)) (Z.pos two53)
                (Pos2Z.is_pos two53)) as Hk.
  set (k := next_draw (np_random w) mod Z.pos two53) in *. clearbody k.
  change (Z.pos two53) with (2 ^ 53) in *.
  destruct (Z.lt_trichotomy bound 0) as [Hneg | [-> | Hpos]].
  - replace bound with (- (- bound)) by lia.
    rewrite round53_odd, Z.mul_opp_l, round53_odd.
    pose proof (rounded_product_below (- bound) k ltac:(lia) Hk) as [H0 H1].
    rewrite Z.quot_opp_l by (change (2 ^ 53) with 9007199254740992; lia).
    rewrite Z.quot_div_nonneg by (change (2 ^ 53) with 9007199254740992; lia).
    assert (0 <= round53 (round53 (- bound) * k) / 2 ^ 53)
      by (apply Z.div_pos; [lia | change (2 ^ 53) with 9007199254740992; lia]).
    assert (round53 (round53 (- bound) * k) / 2 ^ 53 < - bound)
      by (apply Z.div_lt_upper_bound;
          [change (2 ^ 53) with 9007199254740992; lia | lia]).
    lia.
  - change (round53 0) with 0. rewrite Z.mul_0_l. change (round53 0) with 0.
    rewrite Z.quot_0_l by (change (2 ^ 53) with 9007199254740992; lia). lia.
  - pose proof (rounded_product_below bound k Hpos Hk) as [H0 H1].
    rewrite Z.quot_div_nonneg by (change (2 ^ 53) with 9007199254740992; lia).
    assert (0 <= round53 (round53 bound * k) / 2 ^ 53)
      by (apply Z.div_pos; [lia | change (2 ^ 53) with 9007199254740992; lia]).
    assert (round53 (round53 bound * k) / 2 ^ 53 < bound)
      by (apply Z.div_lt_upper_bound;
          [change (2 ^ 53) with 9007199254740992; lia | lia]).
    lia.
Qed.

Lemma sampled_width_nonneg T w : 0 <= T -> 0 <= sampled_width T w.
Proof.
  intros HT. pose proof (sampled_width_within T w) as H.
  unfold width_within in H. lia.
Qed.

Lemma float_fits_53 n : Z.abs n <= 2 ^ 53 -> float_fits n = true.
Proof.
  intros Hn. unfold float_fits.
  assert (Hr : round53 n = n).
  { destruct (Z.le_ge_cases 0 n).
    - rewrite <- (Z.mul_1_r n) at 1 2. change 1 with (2 ^ 0).
      apply round53_representable; lia.
    - replace n with (- (- n)) by lia. rewrite round53_odd. f_equal.
      rewrite <- (Z.mul_1_r (- n)) at 1 2. change 1 with (2 ^ 0).
      apply round53_representable; lia. }
  rewrite Hr. apply Z.ltb_lt.
  apply Z.le_lt_trans with (2 ^ 53); [exact Hn|].
  apply Z.pow_lt_mono_r; lia.
Qed.

(** A call of [np.random.uniform(0, T)], by outcome. *)
Lemma np_random_uniform_cases T w :
  (float_fits T = true /\
   exists q,
     np_random_uniform T w = (Returns q, set_np_random (advance (np_random w)) w) /\
     py_int q = sampled_width T w) \/
  (float_fits T = false /\ np_random_uniform T w = (Raises overflow_error, w)).
Proof.
  unfold np_random_uniform. destruct (float_fits T).
  - left. split; [reflexivity|]. eexists. split; reflexivity.
  - right. split; reflexivity.
Qed.

Lemma random_randint_cases a b w :
  (b < a /\ random_randint a b w = (Raises (ValueError "empty range for randrange()"), w)) \/
  (exists v, a <= v <= b /\
     random_randint a b w = (Returns v, set_py_random (advance (py_random w)) w)).
Proof.
  unfold random_randint. destruct (Z.leb_spec (b + 1 - a) 0) as [Hle|Hgt].
  - left. split; [lia | reflexivity].
  - right. eexists. split; [|reflexivity].
    pose proof (Z.mod_pos_bound (next_draw (py_random w)) (b + 1 - a) Hgt). lia.
Qed.

(** ** The invariant of [spec_augment] *)

Lemma aug_inv_init w0 feat a T F :
  heap w0 !! feat = Some a -> aug_inv w0 feat a T F w0.
Proof.
  intros Hl. split; [reflexivity|]. split; [reflexivity|].
  exists a, []. rewrite app_nil_r. repeat split; auto.
  intros i j. unfold py_masked; simpl. now destruct (entry a i j).
Qed.

Lemma py_masked_snoc a masks ev i j :
  py_masked a (masks ++ [ev]) i j =
  py_masked a masks i j || in_py_span a (Z.of_nat i) (Z.of_nat j) ev.
Proof. unfold py_masked. rewrite existsb_app. simpl. now rewrite orb_false_r. Qed.

Lemma aug_inv_write w0 feat a T F w ev a1 a2 :
  aug_inv w0 feat a T F w ->
  heap w !! feat = Some a1 ->
  shape0 a2 = shape0 a1 -> shape1 a2 = shape1 a1 ->
  write_in_bounds feat a ev ->
  (0 <= T -> 0 <= F -> span_ordered ev) ->
  (forall i j, entry a2 i j =
     option_map (fun x => if in_py_span a (Z.of_nat i) (Z.of_nat j) ev then 0%Q else x)
                (entry a1 i j)) ->
  aug_inv w0 feat a T F (emit ev (set_heap (<[feat := a2]> (heap w)) w)).
Proof.
  intros (Hf & Hfr & a' & masks & Hl & Htr & Hs0 & Hs1 & Hb & Ho & He)
         Hl1 H0 H1 Hev Hord Hent.
  assert (a' = a1) as -> by congruence.
  split; [exact Hf|]. split.
  - intros l Hne. simpl. rewrite lookup_insert_ne by congruence. now apply Hfr.
  - exists a2, (masks ++ [ev]). simpl. rewrite lookup_insert_eq.
    split; [reflexivity|]. split; [rewrite Htr; now rewrite app_assoc|].
    split; [congruence|]. split; [congruence|].
    split; [apply Forall_app; split; [exact Hb | now constructor]|].
    split.
    + intros HT HF. apply Forall_app. split; [now apply Ho|].
      constructor; [now apply Hord | constructor].
    + intros i j. rewrite Hent, He, py_masked_snoc.
      destruct (entry a i j); simpl; [|reflexivity].
      destruct (py_masked a masks i j), (in_py_span a _ _ ev); reflexivity.
Qed.

Lemma time_mask_keeps w0 feat a T F w :
  aug_inv w0 feat a T F w ->
  aug_inv w0 feat a T F (snd (time_mask feat T (Z.of_nat (shape0 a)) w)).
Proof.
  intros Hinv. unfold time_mask.
  destruct (np_random_uniform_cases T w) as [(_ & q & Hu & Hw) | (_ & Hu)];
    [|rewrite (bind_raises _ _ _ _ _ Hu); exact Hinv].
  rewrite (bind_returns _ _ _ _ _ Hu). cbv zeta. rewrite Hw.
  set (t := sampled_width T w). set (w1 := set_np_random _ w).
  assert (Hinv1 : aug_inv w0 feat a T F w1) by exact Hinv.
  destruct (random_randint_cases 0 (Z.of_nat (shape0 a) - t) w1)
    as [[_ Hr] | (t0 & Ht0 & Hr)].
  - rewrite (bind_raises _ _ _ _ _ Hr). exact Hinv1.
  - rewrite (bind_returns _ _ _ _ _ Hr).
    set (w2 := set_py_random _ w1).
    assert (Hinv2 : aug_inv w0 feat a T F w2) by exact Hinv.
    destruct Hinv2 as (Hf & Hfr & a' & masks & Hl & Hrest) eqn:E. clear E.
    unfold setitem_rows. rewrite Hl. simpl snd.
    destruct Hrest as (_ & Hs0 & Hs1 & _).
    apply (aug_inv_write w0 feat a T F w2 (EvSetRows feat t0 (t0 + t)) a');
      try reflexivity.
    + exact Hinv.
    + exact Hl.
    + simpl. repeat split; lia.
    + intros HT _. simpl. pose proof (sampled_width_nonneg T w HT). fold t in H. lia.
    + intros i j. rewrite entry_assign_rows. simpl. now rewrite Hs0.
Qed.

Lemma freq_mask_keeps w0 feat a T F w :
  aug_inv w0 feat a T F w ->
  aug_inv w0 feat a T F (snd (freq_mask feat F (Z.of_nat (shape1 a)) w)).
Proof.
  intros Hinv. unfold freq_mask.
  destruct (np_random_uniform_cases F w) as [(_ & q & Hu & Hw) | (_ & Hu)];
    [|rewrite (bind_raises _ _ _ _ _ Hu); exact Hinv].
  rewrite (bind_returns _ _ _ _ _ Hu). cbv zeta. rewrite Hw.
  set (f := sampled_width F w). set (w1 := set_np_random _ w).
  assert (Hinv1 : aug_inv w0 feat a T F w1) by exact Hinv.
  destruct (random_randint_cases 0 (Z.of_nat (shape1 a) - f) w1)
    as [[_ Hr] | (f0 & Hf0 & Hr)].
  - rewrite (bind_raises _ _ _ _ _ Hr). exact Hinv1.
  - rewrite (bind_returns _ _ _ _ _ Hr).
    set (w2 := set_py_random _ w1).
    assert (Hinv2 : aug_inv w0 feat a T F w2) by exact Hinv.
    destruct Hinv2 as (Hf & Hfr & a' & masks & Hl & Hrest) eqn:E. clear E.
    unfold setitem_cols. rewrite Hl. simpl snd.
    destruct Hrest as (_ & Hs0 & Hs1 & _).
    apply (aug_inv_write w0 feat a T F w2 (EvSetCols feat f0 (f0 + f)) a');
      try reflexivity.
    + exact Hinv.
    + exact Hl.
    + simpl. repeat split; lia.
    + intros _ HF. simpl. pose proof (sampled_width_nonneg F w HF). fold f in H. lia.
    + intros i j. rewrite entry_assign_cols. simpl. now rewrite Hs1.
Qed.

Lemma spec_augment_inv w feat a T F tn fn :
  heap w !! feat = Some a ->
  aug_inv w feat a T F (snd (spec_augment feat T F tn fn w)).
Proof.
  intros Hl. rewrite spec_augment_unfold.
  unfold bind at 1. unfold tensor_size at 1. rewrite Hl.
  unfold bind at 1. unfold tensor_size at 1. rewrite Hl.
  unfold bind at 1.
  pose proof (repeat_m_invariant (aug_inv w feat a T F) _
                (time_mask_keeps w feat a T F) (Z.to_nat tn) w
                (aug_inv_init w feat a T F Hl)) as Ht.
  unfold for_range at 1.
  destruct (repeat_m (Z.to_nat tn) _ w) as [[[]|e] w1]; simpl in Ht; [|exact Ht].
  unfold bind at 1.
  pose proof (repeat_m_invariant (aug_inv w feat a T F) _
                (freq_mask_keeps w feat a T F) (Z.to_nat fn) w1 Ht) as Hq.
  unfold for_range at 1.
  destruct (repeat_m (Z.to_nat fn) _ w1) as [[[]|e] w2]; simpl in Hq; exact Hq.
Qed.

Lemma py_masked_masked feat a masks i j :
  Forall (write_in_bounds feat a) masks ->
  Forall span_ordered masks ->
  py_masked a masks i j = masked masks i j.
Proof.
  unfold py_masked, masked. induction masks as [|ev masks IH]; intros Hb Ho.
  - reflexivity.
  - inversion Hb as [|? ? Hev Hb']; inversion Ho as [|? ? Hoe Ho']; subst.
    simpl. rewrite IH by assumption. f_equal.
    destruct ev; simpl in *; try contradiction;
      destruct Hev as (_ & ? & ?); now apply in_slice_interval.
Qed.

(** ** [spec_augment]: the claims *)

(** C1. Whatever the seed and whatever the bounds [T] and [F] (larger than
    the tensor or not), the slice assignments [spec_augment] performs, up to
    its return or its raise, are row spans [t0, t0+t) with [0 <= t0] and
    [t0+t <= feat.size(0)] and column spans [f0, f0+f) with [0 <= f0] and
    [f0+f <= feat.size(1)], all on [feat]. *)
Theorem spec_augment_masks_in_bounds w feat a T F tn fn :
  heap w !! feat = Some a ->
  exists masks,
    trace (snd (spec_augment feat T F tn fn w)) = trace w ++ masks /\
    Forall (write_in_bounds feat a) masks.
Proof.
  intros Hl.
  destruct (spec_augment_inv w feat a T F tn fn Hl)
    as (_ & _ & a' & masks & _ & Htr & _ & _ & Hb & _).
  now exists masks.
Qed.

(** C7. With [time_mask_num = 0] and [freq_mask_num = 0], [spec_augment]
    returns the reference it was given and leaves the world as it found it:
    the tensor and every other heap cell, both random generators and the
    trace are unchanged. *)
Theorem spec_augment_zero_masks w feat a T F :
  heap w !! feat = Some a ->
  spec_augment feat T F 0 0 w = (Returns feat, w).
Proof.
  intros Hl. unfold spec_augment, bind, tensor_size.
  rewrite Hl. cbn iota beta. rewrite Hl. reflexivity.
Qed.

(** C8. After [spec_augment], whether it returned or raised, every entry of
    [feat] selected by none of the row and column slices it assigned has its
    original value, and every entry selected by one of them is zero; the
    shape of [feat] and every other tensor of the heap are unchanged.  For
    non-negative bounds [T] and [F] the entries a slice selects are exactly
    those of its time span [t0, t0+t) or frequency span [f0, f0+f). *)
Theorem spec_augment_frame w feat a T F tn fn r w' :
  heap w !! feat = Some a ->
  spec_augment feat T F tn fn w = (r, w') ->
  exists a' masks,
    heap w' !! feat = Some a' /\
    trace w' = trace w ++ masks /\
    shape0 a' = shape0 a /\ shape1 a' = shape1 a /\
    (forall i j,
       entry a' i j =
       option_map (fun x => if py_masked a masks i j then 0%Q else x) (entry a i j)) /\
    (0 <= T -> 0 <= F -> forall i j, py_masked a masks i j = masked masks i j) /\
    (forall l, l <> feat -> heap w' !! l = heap w !! l).
Proof.
  intros Hl Hrun.
  pose proof (spec_augment_inv w feat a T F tn fn Hl) as Hinv.
  rewrite Hrun in Hinv. simpl in Hinv.
  destruct Hinv as (_ & Hfr & a' & masks & Hl' & Htr & Hs0 & Hs1 & Hb & Ho & He).
  exists a', masks. repeat split; try assumption.
  intros HT HF i j.
  exact (py_masked_masked feat a masks i j Hb (Ho HT HF)).
Qed.

Lemma widest_draws_width n bound w :
  0 <= n -> n + 1 < bound <= Z.pos two53 ->
  n < sampled_width bound (set_np_random widest_draws w).
Proof.
  intros Hn Hb. unfold sampled_width, widest_draws, next_draw. simpl.
  change (Z.pos two53) with (2 ^ 53) in *.
  pose proof (pow2_pos 53 ltac:(lia)) as Hd.
  rewrite (Z.mod_small (2 ^ 53 - 1)) by lia.
  assert (HT : round53 bound = bound).
  { rewrite <- (Z.mul_1_r bound) at 1 2. change 1 with (2 ^ 0).
    apply round53_representable; lia. }
  rewrite HT.
  assert (Hlow : (bound - 1) * 2 ^ 53 <= round53 (bound * (2 ^ 53 - 1))).
  { rewrite <- (round53_representable (bound - 1) 53) by lia.
    apply round53_mono; nia. }
  assert (0 <= round53 (bound * (2 ^ 53 - 1))) by (apply round53_nonneg; nia).
  rewrite Z.quot_div_nonneg by lia.
  apply Z.lt_le_trans with (bound - 1); [lia|].
  apply Z.div_le_lower_bound; lia.
Qed.

Lemma time_mask_too_wide feat a T w :
  heap w !! feat = Some a ->
  float_fits T = true ->
  Z.of_nat (shape0 a) < sampled_width T w ->
  time_mask feat T (Z.of_nat (shape0 a)) w =
  (Raises (ValueError "empty range for randrange()"),
   set_np_random (advance (np_random w)) w).
Proof.
  intros Hl Hfit Hwide. unfold time_mask.
  destruct (np_random_uniform_cases T w) as [(_ & q & Hu & Hw) | (Hno & _)];
    [|congruence].
  rewrite (bind_returns _ _ _ _ _ Hu). cbv zeta. rewrite Hw.
  destruct (random_randint_cases 0 (Z.of_nat (shape0 a) - sampled_width T w)
              (set_np_random (advance (np_random w)) w))
    as [[_ Hr] | (t0 & Ht0 & _)]; [|lia].
  now rewrite (bind_raises _ _ _ _ _ Hr).
Qed.

Lemma freq_mask_too_wide feat a F w :
  heap w !! feat = Some a ->
  float_fits F = true ->
  Z.of_nat (shape1 a) < sampled_width F w ->
  freq_mask feat F (Z.of_nat (shape1 a)) w =
  (Raises (ValueError "empty range for randrange()"),
   set_np_random (advance (np_random w)) w).
Proof.
  intros Hl Hfit Hwide. unfold freq_mask.
  destruct (np_random_uniform_cases F w) as [(_ & q & Hu & Hw) | (Hno & _)];
    [|congruence].
  rewrite (bind_returns _ _ _ _ _ Hu). cbv zeta. rewrite Hw.
  destruct (random_randint_cases 0 (Z.of_nat (shape1 a) - sampled_width F w)
              (set_np_random (advance (np_random w)) w))
    as [[_ Hr] | (f0 & Hf0 & _)]; [|lia].
  now rewrite (bind_raises _ _ _ _ _ Hr).
Qed.

(** C9. The sampled width is not checked against the tensor.  If the time
    dimension is at least two below [T] (a bound of at most 2^53) and a time
    mask is requested, some seed samples a width [t > feat.size(0)], and under
    it the call raises the empty-range [ValueError] of [random.randint] with
    the tensor untouched; likewise for the channel count and [F] when no time
    mask is requested and a frequency mask is. *)
Theorem spec_augment_width_unchecked w feat a T F tn fn :
  heap w !! feat = Some a ->
  (1 <= tn -> Z.of_nat (shape0 a) + 1 < T <= Z.pos two53 ->
   exists g,
     Z.of_nat (shape0 a) < sampled_width T (set_np_random g w) /\
     spec_augment feat T F tn fn (set_np_random g w) =
     (Raises (ValueError "empty range for randrange()"),
      set_np_random (advance g) w)) /\
  (tn <= 0 -> 1 <= fn -> Z.of_nat (shape1 a) + 1 < F <= Z.pos two53 ->
   exists g,
     Z.of_nat (shape1 a) < sampled_width F (set_np_random g w) /\
     spec_augment feat T F tn fn (set_np_random g w) =
     (Raises (ValueError "empty range for randrange()"),
      set_np_random (advance g) w)).
Proof.
  intros Hl. split.
  - intros Htn HT. exists widest_draws.
    pose proof (widest_draws_width (Z.of_nat (shape0 a)) T w ltac:(lia) HT) as Hwide.
    split; [exact Hwide|].
    rewrite spec_augment_unfold.
    unfold bind at 1. unfold tensor_size at 1. simpl heap. rewrite Hl.
    unfold bind at 1. unfold tensor_size at 1. simpl heap. rewrite Hl.
    unfold bind at 1. unfold for_range at 1.
    destruct (Z.to_nat tn) as [|n] eqn:En; [lia|].
    simpl repeat_m. unfold bind at 1.
    rewrite (time_mask_too_wide feat a T (set_np_random widest_draws w) Hl
               (float_fits_53 T ltac:(change (2 ^ 53) with (Z.pos two53); lia)) Hwide).
    reflexivity.
  - intros Htn Hfn HF. exists widest_draws.
    pose proof (widest_draws_width (Z.of_nat (shape1 a)) F w ltac:(lia) HF) as Hwide.
    split; [exact Hwide|].
    rewrite spec_augment_unfold.
    unfold bind at 1. unfold tensor_size at 1. simpl heap. rewrite Hl.
    unfold bind at 1. unfold tensor_size at 1. simpl heap. rewrite Hl.
    unfold bind at 1. unfold for_range at 1.
    replace (Z.to_nat tn) with O by lia. simpl repeat_m. unfold ret at 1.
    unfold bind at 1. unfold for_range at 1.
    destruct (Z.to_nat fn) as [|n] eqn:En; [lia|].
    simpl repeat_m. unfold bind at 1.
    rewrite (freq_mask_too_wide feat a F (set_np_random widest_draws w) Hl
               (float_fits_53 F ltac:(change (2 ^ 53) with (Z.pos two53); lia)) Hwide).
    reflexivity.
Qed.

(** ** Arrays: shapes, transposition, reversal *)

Lemma length_transpose_rows {A} n (rs : list (list A)) :
  Forall (fun r => length r = n) rs -> length (transpose_rows n rs) = n.
Proof.
  induction 1 as [|r rs Hr _ IH]; simpl.
  - apply length_replicate.
  - rewrite length_zip_with. lia.
Qed.

Lemma transpose_rows_columns {A} n (rs : list (list A)) :
  Forall (fun c => length c = length rs) (transpose_rows n rs).
Proof.
  induction rs as [|r rs IH]; simpl.
  - induction n; simpl; constructor; auto.
  - revert IH. generalize (transpose_rows n rs). intros cols.
    revert r. induction cols as [|c cols IHc]; intros r Hcols.
    + destruct r; constructor.
    + destruct r as [|x r]; simpl; [constructor|].
      inversion Hcols; subst. constructor; [simpl; congruence | now apply IHc].
Qed.

Lemma zip_with_reverse {A B C} (f : A -> B -> C) l k :
  length l = length k ->
  zip_with f (reverse l) (reverse k) = reverse (zip_with f l k).
Proof.
  revert k. induction l as [|x l IH]; intros [|y k] Hlen; simpl in *; try discriminate.
  - reflexivity.
  - rewrite !reverse_cons, zip_with_app by (rewrite !length_reverse; lia).
    rewrite IH by lia. reflexivity.
Qed.

Lemma transpose_rows_reverse {A} n (rs : list (list A)) :
  Forall (fun r => length r = n) rs ->
  transpose_rows n (map reverse rs) = reverse (transpose_rows n rs).
Proof.
  induction 1 as [|r rs Hr Hrs IH]; simpl.
  - now rewrite reverse_replicate.
  - rewrite IH. apply zip_with_reverse.
    rewrite length_transpose_rows by assumption. exact Hr.
Qed.

Lemma wf_flip_axis1 a : wf_ndarray a -> wf_ndarray (flip_axis1 a).
Proof.
  intros [Hn Hr]. split; simpl.
  - now rewrite length_map.
  - apply Forall_map. eapply Forall_impl; [exact Hr|].
    intros r Hlen. simpl. now rewrite length_reverse.
Qed.

Lemma wf_np_swapaxes a : wf_ndarray a -> wf_ndarray (np_swapaxes a).
Proof.
  intros [Hn Hr]. split; simpl.
  - now apply length_transpose_rows.
  - rewrite <- Hn. apply transpose_rows_columns.
Qed.

Lemma swapaxes_flip a :
  wf_ndarray a -> np_swapaxes (flip_axis1 a) = reverse_time (np_swapaxes a).
Proof.
  intros [_ Hr]. unfold np_swapaxes, flip_axis1, reverse_time. simpl.
  now rewrite transpose_rows_reverse.
Qed.

(** ** Slicing a signal by ordered spans *)



(** ** The reference collaborators meet the contract *)

Lemma reference_features_shape y n hop S :
  Reference.features y n hop = inr S ->
  wf_ndarray S /\ Z.of_nat (shape0 S) = n /\
  Z.of_nat (shape1 S) = 1 + Z.of_nat (length y) / hop.
Proof.
  unfold Reference.features.
  destruct (Z.ltb_spec n 0) as [|Hn]; simpl; [discriminate|].
  destruct (Z.leb_spec hop 0) as [|Hhop]; [discriminate|].
  intros [= <-]. simpl. split; [split; simpl|split].
  - now rewrite length_map, length_seq.
  - apply Forall_map, Forall_forall. intros m _. simpl.
    now rewrite length_map, length_seq.
  - lia.
  - unfold Reference.frames.
    assert (0 <= Z.of_nat (length y) / hop) by (apply Z.div_pos; lia). lia.
Qed.

Lemma reference_leading_silence_le y :
  (Reference.leading_silence y <= length y)%nat.
Proof. induction y as [|x y IH]; simpl; [lia|]. destruct (Qeq_bool x 0); lia. Qed.

Lemma reference_split_spans y top_db ivs :
  Reference.split y top_db = inr ivs ->
  ordered_spans 0 (Z.of_nat (length y)) ivs.
Proof.
  intros [= <-]. pose proof (reference_leading_silence_le y). simpl. lia.
Qed.

Lemma reference_load_wav_scaled (fs : gmap string (list Byte.byte)) path bs xs :
  fs !! path = Some bs ->
  Reference.wav_samples bs = Some xs ->
  Reference.load fs path 16000 =
    inr (map (fun x => (inject_Z x / inject_Z 32768)%Q) xs).
Proof. intros Hf Hx. unfold Reference.load. now rewrite Hf, Hx. Qed.

Lemma reference_amplitude_to_db_shape S D :
  Reference.amplitude_to_db S = inr D ->
  shape0 D = shape0 S /\ shape1 D = shape1 S /\ (wf_ndarray S -> wf_ndarray D).
Proof. intros [= <-]. auto. Qed.

Lemma reference_contract : @Contract reference.
Proof.
  constructor.
  - intros y sr n_mels n_fft hop win S. apply reference_features_shape.
  - intros y sr hop n_mfcc n_fft win S _. apply reference_features_shape.
  - apply reference_amplitude_to_db_shape.
  - apply reference_split_spans.
  - apply reference_load_wav_scaled.
Qed.

(** ** The feature extractors *)

Lemma np_memmap_world filepath w :
  snd (np_memmap filepath w) = emit (EvMemmap filepath) w.
Proof.
  unfold np_memmap, bind, tell. simpl.
  destruct (files w !! filepath) as [bs|]; [|reflexivity].
  destruct (Nat.eqb (length bs) 0); [reflexivity|].
  destruct (Nat.odd (length bs)); reflexivity.
Qed.

Lemma np_memmap_readable filepath w bs :
  readable_pcm w filepath bs ->
  np_memmap filepath w = (Returns (int16_le bs), emit (EvMemmap filepath) w).
Proof.
  intros (Hf & Hne & Hev). unfold np_memmap, bind, tell. simpl. rewrite Hf.
  destruct (Nat.eqb_spec (length bs) 0) as [|_]; [contradiction|].
  now rewrite Hev.
Qed.

Lemma np_memmap_returns filepath w pcm w' :
  np_memmap filepath w = (Returns pcm, w') ->
  exists bs, readable_pcm w filepath bs /\ pcm = int16_le bs /\
             w' = emit (EvMemmap filepath) w.
Proof.
  unfold np_memmap, bind, tell, readable_pcm. simpl.
  destruct (files w !! filepath) as [bs|]; [|discriminate].
  destruct (Nat.eqb_spec (length bs) 0) as [|Hne]; [discriminate|].
  destruct (Nat.odd (length bs)) eqn:Hodd; [discriminate|].
  intros [= <- <-]. now exists bs.
Qed.

Lemma np_memmap_missing filepath w :
  files w !! filepath = None ->
  np_memmap filepath w =
  (Raises (FileNotFoundError filepath), emit (EvMemmap filepath) w).
Proof. intros Hf. unfold np_memmap, bind, tell. simpl. now rewrite Hf. Qed.

Lemma wrap16_range lo hi :
  -32768 <= wrap16 (Z.of_N (Byte.to_N lo) + 256 * Z.of_N (Byte.to_N hi)) <= 32767.
Proof.
  pose proof (Byte.to_N_bounded lo). pose proof (Byte.to_N_bounded hi).
  unfold wrap16. destruct (Z.ltb_spec (Z.of_N (Byte.to_N lo) + 256 * Z.of_N (Byte.to_N hi)) 32768); lia.
Qed.

Lemma int16_le_range bs : Forall (fun x => -32768 <= x <= 32767) (int16_le bs).
Proof.
  cut (Forall (fun x => -32768 <= x <= 32767) (int16_le bs) /\
       forall b, Forall (fun x => -32768 <= x <= 32767) (int16_le (b :: bs))).
  { now intros [? _]. }
  induction bs as [|hi bs [IH0 IH1]]; simpl.
  - split; [constructor | intros _; constructor].
  - split; [apply IH1|]. intros lo. constructor; [apply wrap16_range | exact IH0].
Qed.

Lemma int16_le_lookup bs i lo hi :
  bs !! (2 * i)%nat = Some lo -> bs !! (2 * i + 1)%nat = Some hi ->
  int16_le bs !! i =
  Some (wrap16 (Z.of_N (Byte.to_N lo) + 256 * Z.of_N (Byte.to_N hi))).
Proof.
  revert bs. induction i as [|i IH]; intros [|b0 [|b1 rest]]; simpl;
    try discriminate.
  - now intros [= ->] [= ->].
  - replace (i + S (i + 0))%nat with (S (2 * i)) by lia.
    replace (i + S (i + 0) + 1)%nat with (S (2 * i + 1)) by lia.
    simpl. apply IH.
Qed.

Lemma length_int16_le bs : length (int16_le bs) = (length bs / 2)%nat.
Proof.
  rewrite <- Nat.div2_div.
  cut (length (int16_le bs) = Nat.div2 (length bs) /\
       forall b, length (int16_le (b :: bs)) = Nat.div2 (S (length bs))).
  { now intros [? _]. }
  induction bs as [|hi bs [IH0 IH1]].
  - split; [reflexivity | intros b; reflexivity].
  - split; [apply IH1|]. intros lo. simpl int16_le. simpl length.
    rewrite IH0. reflexivity.
Qed.

Section ExtractorProperties.
Context `{External} {contract : Contract}.

(** The loading block of both extractors, lines 47-57 and 100-110. *)
Lemma melspectrogram_pcm_loaded filepath n_mels ds ir mt w pcm w1 :
  np_memmap filepath w = (Returns pcm, w1) ->
  get_librosa_melspectrogram filepath n_mels ds ir mt "pcm" w =
  melspectrogram_of_signal (map inject_Z pcm) n_mels ds ir mt w1.
Proof.
  intros Hm. unfold get_librosa_melspectrogram. cbn [String.eqb Ascii.eqb Bool.eqb].
  unfold bind at 1, try_except, bind at 1. now rewrite Hm.
Qed.

Lemma mfcc_pcm_loaded filepath n_mfcc ds ir w pcm w1 :
  np_memmap filepath w = (Returns pcm, w1) ->
  get_librosa_mfcc filepath n_mfcc ds ir "pcm" w =
  mfcc_of_signal (map inject_Z pcm) ds ir w1.
Proof.
  intros Hm. unfold get_librosa_mfcc. cbn [String.eqb Ascii.eqb Bool.eqb].
  unfold bind at 1, try_except, bind at 1. now rewrite Hm.
Qed.

Lemma melspectrogram_pcm_failed filepath n_mels ds ir mt w e w1 :
  np_memmap filepath w = (Raises e, w1) ->
  get_librosa_melspectrogram filepath n_mels ds ir mt "pcm" w =
  (Returns None, emit (EvLoggerInfo (filepath +:+ " Error Occur !!")) w1).
Proof.
  intros Hm. unfold get_librosa_melspectrogram. cbn [String.eqb Ascii.eqb Bool.eqb].
  unfold bind at 1, try_except, bind at 1. now rewrite Hm.
Qed.

Lemma mfcc_pcm_failed filepath n_mfcc ds ir w e w1 :
  np_memmap filepath w = (Raises e, w1) ->
  get_librosa_mfcc filepath n_mfcc ds ir "pcm" w =
  (Returns None, emit (EvLoggerInfo (filepath +:+ " Error Occur !!")) w1).
Proof.
  intros Hm. unfold get_librosa_mfcc. cbn [String.eqb Ascii.eqb Bool.eqb].
  unfold bind at 1, try_except, bind at 1. now rewrite Hm.
Qed.

Lemma melspectrogram_wav filepath n_mels ds ir mt w :
  get_librosa_melspectrogram filepath n_mels ds ir mt "wav" w =
  match librosa_load (files w) filepath 16000 with
  | inl e => (Raises e, emit (EvLoad filepath 16000) w)
  | inr signal =>
      melspectrogram_of_signal signal n_mels ds ir mt (emit (EvLoad filepath 16000) w)
  end.
Proof.
  unfold get_librosa_melspectrogram. cbn [String.eqb Ascii.eqb Bool.eqb].
  unfold bind at 1, call_load.
  destruct (librosa_load (files w) filepath 16000); reflexivity.
Qed.

Lemma mfcc_wav filepath n_mfcc ds ir w :
  get_librosa_mfcc filepath n_mfcc ds ir "wav" w =
  match librosa_load (files w) filepath 16000 with
  | inl e => (Raises e, emit (EvLoad filepath 16000) w)
  | inr signal => mfcc_of_signal signal ds ir (emit (EvLoad filepath 16000) w)
  end.
Proof.
  unfold get_librosa_mfcc. cbn [String.eqb Ascii.eqb Bool.eqb].
  unfold bind at 1, call_load.
  destruct (librosa_load (files w) filepath 16000); reflexivity.
Qed.

Lemma melspectrogram_other_format filepath n_mels ds ir mt format w :
  format <> "pcm" -> format <> "wav" ->
  get_librosa_melspectrogram filepath n_mels ds ir mt format w =
    (Raises (ValueError "Invalid format !!"), w).
Proof.
  intros Hp Hw. apply String.eqb_neq in Hp, Hw.
  unfold get_librosa_melspectrogram. now rewrite Hp, Hw.
Qed.

Lemma mfcc_other_format filepath n_mfcc ds ir format w :
  format <> "pcm" -> format <> "wav" ->
  get_librosa_mfcc filepath n_mfcc ds ir format w =
    (Raises (ValueError "Invalid format !!"), w).
Proof.
  intros Hp Hw. apply String.eqb_neq in Hp, Hw.
  unfold get_librosa_mfcc. now rewrite Hp, Hw.
Qed.

(** C4. With a format tag other than [pcm] and [wav], both extractors raise
    [ValueError("Invalid format !!")] and leave the world as it was: the
    trace gains no file access, no library call and no log line. *)
Theorem invalid_format_raises filepath n_mels n_mfcc ds ir mt format w :
  format <> "pcm" -> format <> "wav" ->
  get_librosa_melspectrogram filepath n_mels ds ir mt format w =
    (Raises (ValueError "Invalid format !!"), w) /\
  get_librosa_mfcc filepath n_mfcc ds ir format w =
    (Raises (ValueError "Invalid format !!"), w).
Proof.
  intros Hp Hw. split.
  - now apply melspectrogram_other_format.
  - now apply mfcc_other_format.
Qed.

(** C3. When [np.memmap] cannot read the file, the [pcm] path of both
    extractors logs one line and returns [None] without raising; when the
    loader cannot read it, the [wav] path lets the loader's exception through.
    So over these two formats an unreadable file makes the extractors raise
    exactly when the format is [wav]. *)
Theorem unreadable_file_policy filepath n_mels n_mfcc ds ir mt w :
  (forall e,
     fst (np_memmap filepath w) = Raises e ->
     let logged :=
       emit (EvLoggerInfo (filepath +:+ " Error Occur !!"))
            (emit (EvMemmap filepath) w) in
     get_librosa_melspectrogram filepath n_mels ds ir mt "pcm" w
       = (Returns None, logged) /\
     get_librosa_mfcc filepath n_mfcc ds ir "pcm" w = (Returns None, logged)) /\
  (forall e,
     librosa_load (files w) filepath 16000 = inl e ->
     get_librosa_melspectrogram filepath n_mels ds ir mt "wav" w =
       (Raises e, emit (EvLoad filepath 16000) w) /\
     get_librosa_mfcc filepath n_mfcc ds ir "wav" w =
       (Raises e, emit (EvLoad filepath 16000) w)) /\
  (forall e_pcm e_wav format,
     fst (np_memmap filepath w) = Raises e_pcm ->
     librosa_load (files w) filepath 16000 = inl e_wav ->
     format = "pcm" \/ format = "wav" ->
     ((exists e, fst (get_librosa_melspectrogram filepath n_mels ds ir mt format w)
                 = Raises e) <-> format = "wav") /\
     ((exists e, fst (get_librosa_mfcc filepath n_mfcc ds ir format w)
                 = Raises e) <-> format = "wav")).
Proof.
  assert (Hpcm : forall e, fst (np_memmap filepath w) = Raises e ->
            np_memmap filepath w = (Raises e, emit (EvMemmap filepath) w)).
  { intros e Hm. rewrite <- np_memmap_world, <- Hm.
    now destruct (np_memmap filepath w). }
  split; [|split].
  - intros e Hm logged. apply Hpcm in Hm. split.
    + exact (melspectrogram_pcm_failed filepath n_mels ds ir mt w _ _ Hm).
    + exact (mfcc_pcm_failed filepath n_mfcc ds ir w _ _ Hm).
  - intros e Hl. rewrite melspectrogram_wav, mfcc_wav, Hl. now split.
  - intros e_pcm e_wav format Hm Hl Hfmt. apply Hpcm in Hm.
    pose proof (melspectrogram_pcm_failed filepath n_mels ds ir mt w _ _ Hm) as E1.
    pose proof (mfcc_pcm_failed filepath n_mfcc ds ir w _ _ Hm) as E2.
    pose proof (melspectrogram_wav filepath n_mels ds ir mt w) as E3.
    pose proof (mfcc_wav filepath n_mfcc ds ir w) as E4.
    rewrite Hl in E3, E4.
    split; split.
    + intros [e He]. destruct Hfmt as [->| ->]; [|reflexivity].
      rewrite E1 in He. discriminate.
    + intros ->. rewrite E3. now exists e_wav.
    + intros [e He]. destruct Hfmt as [->| ->]; [|reflexivity].
      rewrite E2 in He. discriminate.
    + intros ->. rewrite E4. now exists e_wav.
Qed.

(** *** Successful runs, step by step *)

Lemma extern_run {A} ev (r : exn + A) w :
  extern ev r w =
  (match r with inl e => Raises e | inr a => Returns a end, emit ev w).
Proof. now destruct r. Qed.

Lemma tensor_of_view (ir : bool) D :
  torch_FloatTensor
    (np_ascontiguousarray
       (view_swapaxes (if ir then view_reverse1 (fresh D) else fresh D))) =
  if ir && single_step D then inl negative_stride_error
  else inr (as_float32 (np_swapaxes (if ir then flip_axis1 D else D))).
Proof.
  destruct ir; [|reflexivity].
  unfold np_ascontiguousarray, backward_axes_trivial, single_step,
    torch_FloatTensor.
  simpl.
  destruct (shape1 D =? 0)%nat, (shape0 D =? 0)%nat, (shape1 D =? 1)%nat;
    reflexivity.
Qed.

Lemma tensor_run (ir : bool) D w :
  (tensor <- lift (torch_FloatTensor
                     (np_ascontiguousarray
                        (view_swapaxes
                           (if ir then view_reverse1 (fresh D) else fresh D)))) ;;
   ret (Some tensor)) w =
  (if ir && single_step D then Raises negative_stride_error
   else Returns (Some (as_float32 (np_swapaxes (if ir then flip_axis1 D else D)))),
   w).
Proof.
  rewrite tensor_of_view. now destruct (ir && single_step D).
Qed.



Lemma mfcc_of_signal_returns signal ds ir w r w' :
  mfcc_of_signal signal ds ir w = (Returns r, w') ->
  exists s w1 S,
    (if ds then strip_silence signal else ret signal) w = (Returns s, w1) /\
    librosa_mfcc s 16000 160 33 400 "hamming" = inr S /\
    r = Some (as_float32 (np_swapaxes (if ir then flip_axis1 S else S))) /\
    ir && single_step S = false /\
    w' = emit (EvMfcc s 16000 160 33 400 "hamming") w1.
Proof.
  unfold mfcc_of_signal. rewrite bind_run.
  destruct ((if ds then strip_silence signal else ret signal) w)
    as [[s|e] w1]; [|discriminate].
  rewrite bind_run, extern_run.
  destruct (librosa_mfcc s 16000 160 33 400 "hamming") as [e|S] eqn:E;
    [discriminate|].
  cbv beta iota zeta. rewrite tensor_run.
  destruct (ir && single_step S) eqn:Eone; [discriminate|].
  intros [= <- <-]. exists s, w1, S.
  split; [reflexivity|]. split; [exact E|]. now repeat split.
Qed.

Lemma melspectrogram_of_signal_returns signal n_mels ds ir mt w r w' :
  melspectrogram_of_signal signal n_mels ds ir mt w = (Returns r, w') ->
  exists s w1 S D post,
    (if ds then strip_silence signal else ret signal) w = (Returns s, w1) /\
    librosa_melspectrogram s 16000 n_mels 400 160 "hamming" = inr S /\
    (if String.eqb mt "log_mel"
     then librosa_amplitude_to_db S = inr D /\ post = [EvAmplitudeToDb S]
     else D = S /\ post = []) /\
    r = Some (as_float32 (np_swapaxes (if ir then flip_axis1 D else D))) /\
    ir && single_step D = false /\
    trace w' =
      trace w1 ++ EvMelspectrogram s 16000 n_mels 400 160 "hamming" :: post.
Proof.
  unfold melspectrogram_of_signal. rewrite bind_run.
  destruct ((if ds then strip_silence signal else ret signal) w)
    as [[s|e] w1]; [|discriminate].
  rewrite bind_run, extern_run.
  destruct (librosa_melspectrogram s 16000 n_mels 400 160 "hamming")
    as [e|S] eqn:E; [discriminate|].
  cbv beta iota. rewrite bind_run.
  destruct (String.eqb mt "log_mel") eqn:Emt.
  - rewrite extern_run.
    destruct (librosa_amplitude_to_db S) as [e|D] eqn:Edb; [discriminate|].
    cbv beta iota zeta. rewrite tensor_run.
    destruct (ir && single_step D) eqn:Eone; [discriminate|].
    intros [= <- <-]. exists s, w1, S, D, [EvAmplitudeToDb S].
    split; [reflexivity|]. split; [exact E|]. split; [now split|].
    split; [reflexivity|]. split; [exact Eone|].
    simpl. now rewrite <- app_assoc.
  - unfold ret at 1. cbv beta iota zeta. rewrite tensor_run.
    destruct (ir && single_step S) eqn:Eone; [discriminate|].
    intros [= <- <-]. exists s, w1, S, S, [].
    split; [reflexivity|]. split; [exact E|]. now repeat split.
Qed.

Lemma get_librosa_melspectrogram_returns filepath n_mels ds ir mt format w feat w' :
  get_librosa_melspectrogram filepath n_mels ds ir mt format w
    = (Returns (Some feat), w') ->
  exists signal w1,
    loaded filepath format w signal w1 /\
    melspectrogram_of_signal signal n_mels ds ir mt w1 = (Returns (Some feat), w').
Proof.
  intros Hrun.
  destruct (String.eqb_spec format "pcm") as [->|Hp].
  - destruct (np_memmap filepath w) as [[pcm|e] w1] eqn:Em.
    + rewrite (melspectrogram_pcm_loaded _ _ _ _ _ _ _ _ Em) in Hrun.
      apply np_memmap_returns in Em as (bs & Hbs & -> & ->).
      eexists _, _. split; [|exact Hrun]. left. split; [reflexivity|].
      now exists bs.
    + rewrite (melspectrogram_pcm_failed _ _ _ _ _ _ _ _ Em) in Hrun.
      discriminate.
  - destruct (String.eqb_spec format "wav") as [->|Hw].
    + rewrite melspectrogram_wav in Hrun.
      destruct (librosa_load (files w) filepath 16000) as [e|signal] eqn:El;
        [discriminate|].
      eexists _, _. split; [|exact Hrun]. right. now repeat split.
    + rewrite (melspectrogram_other_format _ _ _ _ _ _ _ Hp Hw) in Hrun.
      discriminate.
Qed.

Lemma get_librosa_mfcc_returns filepath n_mfcc ds ir format w feat w' :
  get_librosa_mfcc filepath n_mfcc ds ir format w = (Returns (Some feat), w') ->
  exists signal w1,
    loaded filepath format w signal w1 /\
    mfcc_of_signal signal ds ir w1 = (Returns (Some feat), w').
Proof.
  intros Hrun.
  destruct (String.eqb_spec format "pcm") as [->|Hp].
  - destruct (np_memmap filepath w) as [[pcm|e] w1] eqn:Em.
    + rewrite (mfcc_pcm_loaded _ _ _ _ _ _ _ Em) in Hrun.
      apply np_memmap_returns in Em as (bs & Hbs & -> & ->).
      eexists _, _. split; [|exact Hrun]. left. split; [reflexivity|].
      now exists bs.
    + rewrite (mfcc_pcm_failed _ _ _ _ _ _ _ Em) in Hrun. discriminate.
  - destruct (String.eqb_spec format "wav") as [->|Hw].
    + rewrite mfcc_wav in Hrun.
      destruct (librosa_load (files w) filepath 16000) as [e|signal] eqn:El;
        [discriminate|].
      eexists _, _. split; [|exact Hrun]. right. now repeat split.
    + rewrite (mfcc_other_format _ _ _ _ _ _ Hp Hw) in Hrun. discriminate.
Qed.

Lemma get_librosa_melspectrogram_loaded filepath n_mels ds ir mt format w signal w1 :
  loaded filepath format w signal w1 ->
  get_librosa_melspectrogram filepath n_mels ds ir mt format w =
  melspectrogram_of_signal signal n_mels ds ir mt w1.
Proof.
  intros [(-> & bs & Hbs & -> & ->) | (-> & Hl & ->)].
  - apply melspectrogram_pcm_loaded. now apply np_memmap_readable.
  - rewrite melspectrogram_wav. now rewrite Hl.
Qed.

Lemma get_librosa_mfcc_loaded filepath n_mfcc ds ir format w signal w1 :
  loaded filepath format w signal w1 ->
  get_librosa_mfcc filepath n_mfcc ds ir format w =
  mfcc_of_signal signal ds ir w1.
Proof.
  intros [(-> & bs & Hbs & -> & ->) | (-> & Hl & ->)].
  - apply mfcc_pcm_loaded. now apply np_memmap_readable.
  - rewrite mfcc_wav. now rewrite Hl.
Qed.

(** *** The value returned *)

Lemma wf_as_float32 a : wf_ndarray a -> wf_ndarray (as_float32 a).
Proof.
  intros [Hn Hr]. split; simpl.
  - now rewrite length_map.
  - apply Forall_map. eapply Forall_impl; [exact Hr|].
    intros r Hlen. simpl. now rewrite length_map.
Qed.

Lemma returned_shape D (ir : bool) :
  wf_ndarray D ->
  let feat := as_float32 (np_swapaxes (if ir then flip_axis1 D else D)) in
  wf_ndarray feat /\ shape0 feat = shape1 D /\ shape1 feat = shape0 D.
Proof.
  intros Hwf feat. split.
  - apply wf_as_float32, wf_np_swapaxes.
    destruct ir; [now apply wf_flip_axis1 | exact Hwf].
  - subst feat. now destruct ir.
Qed.

Lemma map_reverse {A B} (f : A -> B) l : map f (reverse l) = reverse (map f l).
Proof.
  induction l as [|x l IH]; [reflexivity|].
  simpl. rewrite !reverse_cons, map_app, IH. reflexivity.
Qed.

Lemma returned_reversed D :
  wf_ndarray D ->
  as_float32 (np_swapaxes (flip_axis1 D)) =
  reverse_time (as_float32 (np_swapaxes D)).
Proof.
  intros Hwf. rewrite swapaxes_flip by exact Hwf.
  unfold as_float32, reverse_time. simpl. now rewrite map_reverse.
Qed.

Lemma reversed_tensor D :
  wf_ndarray D -> shape0 D <> O -> shape1 D <> O ->
  (if true && single_step D then Raises negative_stride_error
   else Returns (Some (as_float32 (np_swapaxes (flip_axis1 D))))) =
  reverse_outcome
    (if false && single_step D then Raises negative_stride_error
     else Returns (Some (as_float32 (np_swapaxes D)))).
Proof.
  intros Hwf H0 H1. unfold single_step, reverse_outcome. simpl.
  destruct (Nat.eqb_spec (shape1 D) 0); [contradiction|].
  destruct (Nat.eqb_spec (shape0 D) 0); [contradiction|].
  simpl. destruct (shape1 D =? 1)%nat; [reflexivity|].
  now rewrite returned_reversed.
Qed.

Lemma melspectrogram_of_signal_reverse signal n_mels ds mt w :
  n_mels <> 0 ->
  melspectrogram_of_signal signal n_mels ds true mt w =
  (reverse_outcome (fst (melspectrogram_of_signal signal n_mels ds false mt w)),
   snd (melspectrogram_of_signal signal n_mels ds false mt w)).
Proof.
  intros Hn. unfold melspectrogram_of_signal. rewrite !bind_run.
  destruct ((if ds then strip_silence signal else ret signal) w)
    as [[s|e] w1]; cbv beta iota; [|reflexivity].
  rewrite !bind_run, !extern_run.
  destruct (librosa_melspectrogram s 16000 n_mels 400 160 "hamming")
    as [e|S] eqn:E; cbv beta iota; [reflexivity|].
  apply melspectrogram_shape in E as (Hwf & Hs0 & Hs1).
  assert (Hframes : 0 <= Z.of_nat (length s) / 160)
    by (apply Z.div_pos; lia).
  rewrite !bind_run.
  destruct (String.eqb mt "log_mel").
  - rewrite !extern_run.
    destruct (librosa_amplitude_to_db S) as [e|D] eqn:Edb; cbv beta iota;
      [reflexivity|].
    apply amplitude_to_db_shape in Edb as (Hd0 & Hd1 & HwfD).
    cbv zeta. rewrite (tensor_run true), (tensor_run false). simpl fst. simpl snd.
    f_equal. apply reversed_tensor; [auto | lia | lia].
  - unfold ret at 1 3. cbv beta iota zeta.
    rewrite (tensor_run true), (tensor_run false). simpl fst. simpl snd.
    f_equal. apply reversed_tensor; [auto | lia | lia].
Qed.

Lemma mfcc_of_signal_shape signal ds ir w feat w' :
  mfcc_of_signal signal ds ir w = (Returns (Some feat), w') ->
  exists s w1,
    (if ds then strip_silence signal else ret signal) w = (Returns s, w1) /\
    wf_ndarray feat /\ shape1 feat = 33%nat /\
    Z.of_nat (shape0 feat) = 1 + Z.of_nat (length s) / 160 /\
    trace w' = trace w1 ++ [EvMfcc s 16000 160 33 400 "hamming"].
Proof.
  intros Hrun.
  apply mfcc_of_signal_returns in Hrun as (s & w1 & S & Hprep & HS & [= ->] & _ & ->).
  apply mfcc_shape in HS as (Hwf & Hs0 & Hs1); [|lia].
  destruct (returned_shape S ir Hwf) as (Hwf' & Hr0 & Hr1).
  exists s, w1. split; [exact Hprep|]. split; [exact Hwf'|].
  split; [lia|]. split; [lia|]. reflexivity.
Qed.

Lemma melspectrogram_of_signal_shape signal n_mels ds ir mt w feat w' :
  melspectrogram_of_signal signal n_mels ds ir mt w = (Returns (Some feat), w') ->
  exists s w1 post,
    (if ds then strip_silence signal else ret signal) w = (Returns s, w1) /\
    Z.of_nat (shape0 feat) = 1 + Z.of_nat (length s) / 160 /\
    trace w' =
      trace w1 ++ EvMelspectrogram s 16000 n_mels 400 160 "hamming" :: post.
Proof.
  intros Hrun.
  apply melspectrogram_of_signal_returns in Hrun
    as (s & w1 & S & D & post & Hprep & HS & HD & [= ->] & _ & Htr).
  apply melspectrogram_shape in HS as (HwfS & _ & Hs1).
  assert (HwfD : wf_ndarray D /\ shape1 D = shape1 S).
  { destruct (String.eqb mt "log_mel").
    - destruct HD as [HD _].
      apply amplitude_to_db_shape in HD as (_ & ? & ?). auto.
    - destruct HD as [-> _]. auto. }
  destruct HwfD as [HwfD HsD].
  destruct (returned_shape D ir HwfD) as (_ & Hr0 & _).
  exists s, w1, post. split; [exact Hprep|]. split; [lia | exact Htr].
Qed.

Lemma one_step_refused D (w w' : world) feat :
  (if false && single_step D then Raises negative_stride_error
   else Returns (Some (as_float32 (np_swapaxes D))), w) =
    (Returns (Some feat), w') ->
  shape0 feat = 1%nat ->
  (if true && single_step D then Raises negative_stride_error
   else Returns (Some (as_float32 (np_swapaxes (flip_axis1 D)))), w) =
    (Raises negative_stride_error, w').
Proof.
  simpl. intros [= <- <-] Hone. simpl in Hone.
  unfold single_step. rewrite Hone. simpl.
  now rewrite !orb_true_r.
Qed.

Lemma melspectrogram_of_signal_one_step signal n_mels ds mt w feat w' :
  melspectrogram_of_signal signal n_mels ds false mt w = (Returns (Some feat), w') ->
  shape0 feat = 1%nat ->
  melspectrogram_of_signal signal n_mels ds true mt w =
    (Raises negative_stride_error, w').
Proof.
  unfold melspectrogram_of_signal. rewrite !bind_run.
  destruct ((if ds then strip_silence signal else ret signal) w)
    as [[s|e] w1]; cbv beta iota; [|discriminate].
  rewrite !bind_run, !extern_run.
  destruct (librosa_melspectrogram s 16000 n_mels 400 160 "hamming")
    as [e|S]; cbv beta iota; [discriminate|].
  rewrite !bind_run.
  destruct (String.eqb mt "log_mel").
  - rewrite !extern_run.
    destruct (librosa_amplitude_to_db S) as [e|D]; cbv beta iota zeta;
      [discriminate|].
    rewrite (tensor_run true), (tensor_run false). apply one_step_refused.
  - unfold ret at 1 3. cbv beta iota zeta.
    rewrite (tensor_run true), (tensor_run false). apply one_step_refused.
Qed.

Lemma reverse_time_one_step a :
  wf_ndarray a -> shape0 a = 1%nat -> reverse_time a = a.
Proof.
  destruct a as [n m rs]. intros [Hlen _] Hone. simpl in *. subst n.
  destruct rs as [|r [|r' rs]]; try discriminate. reflexivity.
Qed.

(** C5. Where the code departs from the claim.  A readable PCM file of
    fewer than 160 samples, read without silence removal, gives a matrix of
    one time step when [input_reverse=False]; reversing its time steps would
    give the same matrix back, but the call with [input_reverse=True] raises
    the negative-stride [ValueError] of [torch.FloatTensor] instead, with the
    effects of the other call: [np.ascontiguousarray] copies the reversed
    view only when it has two time steps or more. *)
Theorem melspectrogram_one_frame_reversal_raises filepath n_mels mt w bs feat w' :
  readable_pcm w filepath bs ->
  (length bs < 320)%nat ->
  get_librosa_melspectrogram filepath n_mels false false mt "pcm" w
    = (Returns (Some feat), w') ->
  shape0 feat = 1%nat /\
  reverse_time feat = feat /\
  get_librosa_melspectrogram filepath n_mels false true mt "pcm" w
    = (Raises negative_stride_error, w').
Proof.
  intros Hbs Hshort Hrun.
  assert (Hload : loaded filepath "pcm" w (map inject_Z (int16_le bs))
                    (emit (EvMemmap filepath) w)).
  { left. split; [reflexivity|]. now exists bs. }
  rewrite (get_librosa_melspectrogram_loaded _ _ _ _ _ _ _ _ _ Hload) in Hrun.
  rewrite (get_librosa_melspectrogram_loaded _ _ _ _ _ _ _ _ _ Hload).
  assert (Hone : shape0 feat = 1%nat).
  { pose proof Hrun as Hshape.
    apply melspectrogram_of_signal_shape in Hshape
      as (s & w1 & post & [= <- <-] & Hfr & _).
    rewrite length_map, length_int16_le in Hfr.
    assert (Hsmall : (length bs / 2 < 160)%nat)
      by (apply Nat.Div0.div_lt_upper_bound; lia).
    rewrite Z.div_small in Hfr by lia. lia. }
  split; [exact Hone|]. split.
  - apply reverse_time_one_step; [|exact Hone].
    apply melspectrogram_of_signal_returns in Hrun
      as (s & w1 & S & D & post & _ & HS & HD & [= ->] & _ & _).
    apply melspectrogram_shape in HS as (HwfS & _).
    apply wf_as_float32, wf_np_swapaxes.
    destruct (String.eqb mt "log_mel").
    + destruct HD as [HD _].
      apply amplitude_to_db_shape in HD as (_ & _ & ?). auto.
    + now destruct HD as [-> _].
  - now apply melspectrogram_of_signal_one_step with (feat := feat).
Qed.



Lemma loaded_functional filepath format w s1 w1 s2 w2 :
  loaded filepath format w s1 w1 -> loaded filepath format w s2 w2 ->
  s1 = s2 /\ w1 = w2.
Proof.
  intros [(-> & bs1 & (Hf1 & _) & -> & ->) | (-> & Hl1 & ->)]
         [(Hfmt & bs2 & (Hf2 & _) & -> & ->) | (Hfmt & Hl2 & ->)];
    try discriminate.
  - split; [|reflexivity]. congruence.
  - split; [|reflexivity]. congruence.
Qed.

(** C2. Whatever [n_mfcc] is passed, [get_librosa_mfcc] behaves as for any
    other value of it; it asks the library for 33 coefficients, and every
    time step of the matrix it returns has exactly 33 entries. *)
Theorem mfcc_coefficient_count filepath n_mfcc ds ir format w :
  (forall n_mfcc',
     get_librosa_mfcc filepath n_mfcc' ds ir format w =
     get_librosa_mfcc filepath n_mfcc ds ir format w) /\
  forall feat w',
    get_librosa_mfcc filepath n_mfcc ds ir format w = (Returns (Some feat), w') ->
    shape1 feat = 33%nat /\
    Forall (fun step => length step = 33%nat) (rows feat) /\
    exists y, last (trace w') = Some (EvMfcc y 16000 160 33 400 "hamming").
Proof.
  split; [reflexivity|]. intros feat w' Hrun.
  apply get_librosa_mfcc_returns in Hrun as (signal & w1 & _ & Hrun).
  apply mfcc_of_signal_shape in Hrun
    as (s & w2 & _ & [_ Hrows] & Hs1 & _ & Htr).
  split; [exact Hs1|]. split.
  - eapply Forall_impl; [exact Hrows|]. intros step Hstep.
    cbv beta in Hstep. congruence.
  - exists s. rewrite Htr. apply last_snoc.
Qed.


Lemma scaled_sample_differs x :
  x <> 0 -> ~ (inject_Z x == inject_Z x / inject_Z 32768)%Q.
Proof.
  intros Hx. unfold Qeq, Qdiv, Qmult, Qinv, inject_Z. cbn. lia.
Qed.

(** C10. On the [pcm] path the signal handed to the rest of the extractor
    is the file's 16-bit signed samples, each converted to a float as it is
    (so within [-32768, 32767]); on the [wav] path it is what the loader
    returns, which for the same samples stored as WAV is each sample divided
    by 32768.  The two signals differ at every non-zero sample. *)
Theorem pcm_signal_unscaled filepath wavpath n_mels n_mfcc ds ir mt w bs wav_bs :
  readable_pcm w filepath bs ->
  files w !! wavpath = Some wav_bs ->
  wav_samples wav_bs = Some (int16_le bs) ->
  let pcm_signal := map inject_Z (int16_le bs) in
  let wav_signal :=
    map (fun x => (inject_Z x / inject_Z 32768)%Q) (int16_le bs) in
  (get_librosa_melspectrogram filepath n_mels ds ir mt "pcm" w =
     melspectrogram_of_signal pcm_signal n_mels ds ir mt
       (emit (EvMemmap filepath) w) /\
   get_librosa_mfcc filepath n_mfcc ds ir "pcm" w =
     mfcc_of_signal pcm_signal ds ir (emit (EvMemmap filepath) w)) /\
  (get_librosa_melspectrogram wavpath n_mels ds ir mt "wav" w =
     melspectrogram_of_signal wav_signal n_mels ds ir mt
       (emit (EvLoad wavpath 16000) w) /\
   get_librosa_mfcc wavpath n_mfcc ds ir "wav" w =
     mfcc_of_signal wav_signal ds ir (emit (EvLoad wavpath 16000) w)) /\
  Forall (fun x => -32768 <= x <= 32767) (int16_le bs) /\
  forall i lo hi,
    bs !! (2 * i)%nat = Some lo -> bs !! (2 * i + 1)%nat = Some hi ->
    let x := wrap16 (Z.of_N (Byte.to_N lo) + 256 * Z.of_N (Byte.to_N hi)) in
    pcm_signal !! i = Some (inject_Z x) /\
    wav_signal !! i = Some (inject_Z x / inject_Z 32768)%Q /\
    (x <> 0 -> ~ (inject_Z x == inject_Z x / inject_Z 32768)%Q).
Proof.
  intros Hpcm Hwav Hsame pcm_signal wav_signal.
  pose proof (np_memmap_readable filepath w bs Hpcm) as Hm.
  split; [split|split; [split|split]].
  - apply (melspectrogram_pcm_loaded _ _ _ _ _ _ _ _ Hm).
  - apply (mfcc_pcm_loaded _ _ _ _ _ _ _ Hm).
  - rewrite melspectrogram_wav.
    now rewrite (load_wav_scaled _ _ _ _ Hwav Hsame).
  - rewrite mfcc_wav.
    now rewrite (load_wav_scaled _ _ _ _ Hwav Hsame).
  - apply int16_le_range.
  - intros i lo hi Hlo Hhi x.
    pose proof (int16_le_lookup bs i lo hi Hlo Hhi) as Hx. fold x in Hx.
    subst pcm_signal wav_signal. rewrite !list_lookup_fmap, Hx.
    repeat split. apply scaled_sample_differs.
Qed.

End ExtractorProperties.

(** * The properties on the sample world *)

Example spec_augment_sample_run :
  let '(r, w') := spec_augment 1%positive 4 3 1 1 sample_world in
  r = Returns 1%positive /\
  trace w' = [EvSetRows 1%positive 1 3; EvSetCols 1%positive 1 2] /\
  heap w' !! 1%positive =
    Some (mk_ndarray 3 2 [[1%Q; 0%Q]; [0%Q; 0%Q]; [0%Q; 0%Q]]).
Proof. vm_compute. repeat split. Qed.

Example spec_augment_default_bounds_raise :
  fst (spec_augment 1%positive 70 20 2 2 sample_world) =
  Raises (ValueError "empty range for randrange()").
Proof. vm_compute. reflexivity. Qed.

(** A negative bound samples a negative width; the slice [1:-1] it leads to
    is read from the end of the axis and selects row 1. *)
Example spec_augment_negative_bound :
  let '(_, w') := spec_augment 1%positive (-5) 20 1 0 sample_world in
  trace w' = [EvSetRows 1%positive 1 (-1)] /\
  heap w' !! 1%positive =
    Some (mk_ndarray 3 2 [[1%Q; 2%Q]; [0%Q; 0%Q]; [5%Q; 6%Q]]).
Proof. vm_compute. repeat split. Qed.

Lemma spec_augment_masks_in_bounds_witness :
  heap sample_world !! 1%positive = Some sample_tensor /\
  exists masks,
    trace (snd (spec_augment 1%positive 4 3 1 1 sample_world))
      = trace sample_world ++ masks /\
    Forall (write_in_bounds 1%positive sample_tensor) masks.
Proof.
  split; [reflexivity|].
  apply (spec_augment_masks_in_bounds sample_world 1%positive sample_tensor 4 3 1 1).
  reflexivity.
Defined.

Lemma spec_augment_zero_masks_witness :
  heap sample_world !! 1%positive = Some sample_tensor /\
  spec_augment 1%positive 70 20 0 0 sample_world = (Returns 1%positive, sample_world).
Proof.
  split; [reflexivity|].
  apply (spec_augment_zero_masks sample_world 1%positive sample_tensor 70 20).
  reflexivity.
Defined.

Lemma spec_augment_frame_witness :
  heap sample_world !! 1%positive = Some sample_tensor /\
  exists a' masks,
    heap (snd (spec_augment 1%positive 4 3 1 1 sample_world)) !! 1%positive = Some a' /\
    trace (snd (spec_augment 1%positive 4 3 1 1 sample_world))
      = trace sample_world ++ masks /\
    (forall i j,
       entry a' i j =
       option_map (fun x => if masked masks i j then 0%Q else x)
                  (entry sample_tensor i j)).
Proof.
  split; [reflexivity|].
  destruct (spec_augment_frame sample_world 1%positive sample_tensor 4 3 1 1
              (fst (spec_augment 1%positive 4 3 1 1 sample_world))
              (snd (spec_augment 1%positive 4 3 1 1 sample_world))
              eq_refl eq_refl)
    as (a' & masks & Hl & Htr & _ & _ & He & Hm & _).
  exists a', masks. split; [exact Hl|]. split; [exact Htr|].
  intros i j. rewrite He.
  rewrite (Hm ltac:(lia) ltac:(lia) i j). reflexivity.
Defined.

Lemma spec_augment_width_unchecked_witness :
  (exists g,
     Z.of_nat (shape0 sample_tensor) < sampled_width 70 (set_np_random g sample_world) /\
     spec_augment 1%positive 70 20 2 2 (set_np_random g sample_world) =
     (Raises (ValueError "empty range for randrange()"),
      set_np_random (advance g) sample_world)) /\
  (exists g,
     Z.of_nat (shape1 sample_tensor) < sampled_width 20 (set_np_random g sample_world) /\
     spec_augment 1%positive 70 20 0 2 (set_np_random g sample_world) =
     (Raises (ValueError "empty range for randrange()"),
      set_np_random (advance g) sample_world)).
Proof.
  split.
  - apply (proj1 (spec_augment_width_unchecked sample_world 1%positive sample_tensor
                    70 20 2 2 eq_refl)).
    + lia.
    + unfold two53. simpl. lia.
  - apply (proj2 (spec_augment_width_unchecked sample_world 1%positive sample_tensor
                    70 20 0 2 eq_refl)).
    + lia.
    + lia.
    + unfold two53. simpl. lia.
Defined.

Lemma invalid_format_raises_witness :
  get_librosa_melspectrogram (H:=reference) "a.pcm" 80 false true "log_mel" "mp3"
    sample_world = (Raises (ValueError "Invalid format !!"), sample_world) /\
  get_librosa_mfcc (H:=reference) "a.pcm" 33 false true "mp3" sample_world =
    (Raises (ValueError "Invalid format !!"), sample_world).
Proof.
  apply (invalid_format_raises (H:=reference) "a.pcm" 80 33 false true "log_mel" "mp3"
           sample_world); discriminate.
Defined.

Lemma unreadable_file_policy_witness :
  get_librosa_melspectrogram (H:=reference) "gone" 80 false true "log_mel" "pcm"
    sample_world =
    (Returns None,
     emit (EvLoggerInfo "gone Error Occur !!") (emit (EvMemmap "gone") sample_world)) /\
  get_librosa_melspectrogram (H:=reference) "gone" 80 false true "log_mel" "wav"
    sample_world =
    (Raises (FileNotFoundError "gone"), emit (EvLoad "gone" 16000) sample_world) /\
  ((exists e, fst (get_librosa_mfcc (H:=reference) "gone" 33 false true "wav"
                     sample_world) = Raises e) <-> "wav" = "wav") /\
  ((exists e, fst (get_librosa_mfcc (H:=reference) "gone" 33 false true "pcm"
                     sample_world) = Raises e) <-> "pcm" = "wav").
Proof.
  destruct (unreadable_file_policy (H:=reference) "gone" 80 33 false true "log_mel"
              sample_world)
    as (Hpcm & Hwav & Hiff).
  split; [exact (proj1 (Hpcm (FileNotFoundError "gone") eq_refl))|].
  split; [exact (proj1 (Hwav (FileNotFoundError "gone") eq_refl))|].
  split.
  - exact (proj2 (Hiff (FileNotFoundError "gone") (FileNotFoundError "gone") "wav"
                    eq_refl eq_refl (or_intror eq_refl))).
  - exact (proj2 (Hiff (FileNotFoundError "gone") (FileNotFoundError "gone") "pcm"
                    eq_refl eq_refl (or_introl eq_refl))).
Defined.

Lemma mfcc_coefficient_count_witness :
  exists feat w',
    get_librosa_mfcc (H:=reference) "a.pcm" 13 false true "pcm" sample_world
      = (Returns (Some feat), w') /\
    shape1 feat = 33%nat /\
    Forall (fun step => length step = 33%nat) (rows feat) /\
    exists y, last (trace w') = Some (EvMfcc y 16000 160 33 400 "hamming").
Proof.
  eexists _, _. split; [reflexivity|].
  exact (proj2 (mfcc_coefficient_count (H:=reference) (contract:=reference_contract)
                  "a.pcm" 13 false true "pcm" sample_world) _ _ eq_refl).
Defined.

Lemma melspectrogram_one_frame_reversal_raises_witness :
  exists feat w',
    get_librosa_melspectrogram (H:=reference) "loud.pcm" 3 false false "log_mel"
      "pcm" odd_world = (Returns (Some feat), w') /\
    shape0 feat = 1%nat /\
    reverse_time feat = feat /\
    get_librosa_melspectrogram (H:=reference) "loud.pcm" 3 false true "log_mel"
      "pcm" odd_world = (Raises negative_stride_error, w').
Proof.
  eexists _, _. split; [reflexivity|].
  refine (melspectrogram_one_frame_reversal_raises (H:=reference)
            (contract:=reference_contract)
            "loud.pcm" 3 "log_mel" odd_world
            [Byte.x34; Byte.x12; Byte.xff; Byte.xff] _ _ _ _ eq_refl).
  - split; [reflexivity|]. split; [discriminate | reflexivity].
  - simpl. lia.
Defined.

Example melspectrogram_sample_reversal :
  fst (get_librosa_melspectrogram (H:=reference) "a.pcm" 3 false false "log_mel" "pcm"
         sample_world) =
    Returns (Some (mk_ndarray 2 3 [[0%Q; 1%Q; 2%Q]; [100%Q; 101%Q; 102%Q]])) /\
  fst (get_librosa_melspectrogram (H:=reference) "a.pcm" 3 false true "log_mel" "pcm"
         sample_world) =
    Returns (Some (mk_ndarray 2 3 [[100%Q; 101%Q; 102%Q]; [0%Q; 1%Q; 2%Q]])).
Proof. vm_compute. split; reflexivity. Qed.

Example melspectrogram_one_frame :
  fst (get_librosa_melspectrogram (H:=reference) "loud.pcm" 3 false false "log_mel"
         "pcm" odd_world) =
    Returns (Some (mk_ndarray 1 3 [[0%Q; 1%Q; 2%Q]])) /\
  fst (get_librosa_melspectrogram (H:=reference) "loud.pcm" 3 false true "log_mel"
         "pcm" odd_world) =
    Raises (ValueError "At least one stride in the given numpy array is negative").
Proof. vm_compute. split; reflexivity. Qed.


Lemma pcm_signal_unscaled_witness :
  readable_pcm sample_world "a.pcm" sample_pcm /\
  get_librosa_melspectrogram (H:=reference) "a.pcm" 80 false true "log_mel" "pcm"
    sample_world =
    melspectrogram_of_signal (H:=reference) (map inject_Z (int16_le sample_pcm))
      80 false true "log_mel" (emit (EvMemmap "a.pcm") sample_world) /\
  get_librosa_melspectrogram (H:=reference) "a.wav" 80 false true "log_mel" "wav"
    sample_world =
    melspectrogram_of_signal (H:=reference)
      (map (fun x => (inject_Z x / inject_Z 32768)%Q) (int16_le sample_pcm))
      80 false true "log_mel" (emit (EvLoad "a.wav" 16000) sample_world) /\
  map inject_Z (int16_le sample_pcm) !! 160%nat = Some (inject_Z 4660) /\
  ~ (inject_Z 4660 == inject_Z 4660 / inject_Z 32768)%Q.
Proof.
  assert (Hr : readable_pcm sample_world "a.pcm" sample_pcm).
  { split; [reflexivity|]. split; [discriminate | reflexivity]. }
  split; [exact Hr|].
  destruct (pcm_signal_unscaled (H:=reference) (contract:=reference_contract)
              "a.pcm" "a.wav" 80 33 false true "log_mel" sample_world
              sample_pcm sample_wav Hr eq_refl eq_refl)
    as ((E1 & _) & (E2 & _) & _ & Hs).
  split; [exact E1|]. split; [exact E2|].
  destruct (Hs 160%nat Byte.x34 Byte.x12 eq_refl eq_refl) as (Hp & _ & Hne).
  split; [exact Hp|]. apply Hne. discriminate.
Defined.


(** * Further properties of [spec_augment] *)

(** A loop whose iterations keep a counted invariant when they return, and
    establish [Q] when they raise, does so as a whole. *)
Lemma repeat_m_cases (P : nat -> world -> Prop) (Q : exn -> world -> Prop)
    (body : M unit) :
  (forall k w, P k w ->
     match body w with
     | (Returns _, w') => P (S k) w'
     | (Raises e, w') => Q e w'
     end) ->
  forall n k w, P k w ->
    match repeat_m n body w with
    | (Returns _, w') => P (k + n)%nat w'
    | (Raises e, w') => Q e w'
    end.
Proof.
  intros Hbody n. induction n as [|n IH]; intros k w Hw; simpl.
  - unfold ret. now rewrite Nat.add_0_r.
  - rewrite bind_run. specialize (Hbody k w Hw).
    destruct (body w) as [[[]|e] w1]; [|exact Hbody].
    specialize (IH (S k) w1 Hbody).
    replace (k + S n)%nat with (S k + n)%nat by lia. exact IH.
Qed.

Lemma wf_assign_rows a start stop v :
  wf_ndarray a -> wf_ndarray (assign_rows a start stop v).
Proof.
  intros [Hn Hr]. split; simpl.
  - now rewrite length_imap.
  - apply Forall_lookup. intros i r Hi.
    rewrite list_lookup_imap in Hi.
    destruct (rows a !! i) as [r0|] eqn:E; [|discriminate].
    simpl in Hi. pose proof (proj1 (Forall_lookup _ _) Hr i r0 E) as Hlen.
    simpl in Hlen.
    destruct (in_slice _ _ _ _); injection Hi as <-;
      [now rewrite length_map | exact Hlen].
Qed.

Lemma wf_assign_cols a start stop v :
  wf_ndarray a -> wf_ndarray (assign_cols a start stop v).
Proof.
  intros [Hn Hr]. split; simpl.
  - now rewrite length_map.
  - apply Forall_map. eapply Forall_impl; [exact Hr|].
    intros r Hlen. simpl. now rewrite length_imap.
Qed.

Lemma aug_progress_init w0 feat a T F :
  heap w0 !! feat = Some a -> aug_progress w0 feat a T F 0 0 w0.
Proof.
  intros Hl. unfold aug_progress.
  split; [reflexivity|]. split; [lia|]. split; [reflexivity|]. split; [lia|].
  exists a, [], []. rewrite !app_nil_r.
  split; [exact Hl|]. split; [reflexivity|]. split; [reflexivity|].
  split; [auto|]. split; [reflexivity|]. split; [reflexivity|].
  split; [reflexivity|]. split; constructor.
Qed.

Lemma time_mask_step w0 feat a T F k w :
  aug_progress w0 feat a T F k 0 w ->
  match time_mask feat T (Z.of_nat (shape0 a)) w with
  | (Returns _, w') => aug_progress w0 feat a T F (S k) 0 w'
  | (Raises e, _) =>
      (e = empty_range /\ Z.of_nat (shape0 a) + 1 < T) \/
      (e = overflow_error /\ float_fits T = false)
  end.
Proof.
  intros (Hnd & Hnc & Hpd & Hpc & a' & rm & cm & Hl & Hs0 & Hs1 & Hwf & Htr
          & Hrl & Hcl & Hrm & Hcm).
  unfold time_mask.
  destruct (np_random_uniform_cases T w) as [(_ & q & Hu & Hw) | (Hno & Hu)];
    [|rewrite (bind_raises _ _ _ _ _ Hu); right; now split].
  rewrite (bind_returns _ _ _ _ _ Hu). cbv zeta. rewrite Hw.
  pose proof (sampled_width_within T w) as Hwidth.
  set (t := sampled_width T w) in *. set (w1 := set_np_random _ w).
  destruct (random_randint_cases 0 (Z.of_nat (shape0 a) - t) w1)
    as [[Hlt Hr] | (t0 & Ht0 & Hr)].
  - rewrite (bind_raises _ _ _ _ _ Hr). unfold width_within in Hwidth.
    left. split; [reflexivity | lia].
  - rewrite (bind_returns _ _ _ _ _ Hr).
    unfold setitem_rows. simpl heap. rewrite Hl.
    destruct cm; [|discriminate]. rewrite app_nil_r in Htr.
    unfold aug_progress. simpl.
    split; [exact Hnd|]. split; [lia|]. split; [exact Hpd|]. split; [lia|].
    exists (assign_rows a' t0 (t0 + t) 0%Q), (rm ++ [EvSetRows feat t0 (t0 + t)]), [].
    rewrite lookup_insert_eq, app_nil_r, length_app. simpl.
    split; [reflexivity|]. split; [exact Hs0|]. split; [exact Hs1|].
    split; [intros Ha; now apply wf_assign_rows, Hwf|].
    split; [rewrite Htr; now rewrite app_assoc|].
    split; [lia|]. split; [reflexivity|]. split; [|constructor].
    apply Forall_app. split; [exact Hrm|]. constructor; [|constructor].
    simpl. split; [reflexivity|]. now replace (t0 + t - t0) with t by lia.
Qed.

Lemma freq_mask_step w0 feat a T F nt k w :
  aug_progress w0 feat a T F nt k w ->
  match freq_mask feat F (Z.of_nat (shape1 a)) w with
  | (Returns _, w') => aug_progress w0 feat a T F nt (S k) w'
  | (Raises e, _) =>
      (e = empty_range /\ Z.of_nat (shape1 a) + 1 < F) \/
      (e = overflow_error /\ float_fits F = false)
  end.
Proof.
  intros (Hnd & Hnc & Hpd & Hpc & a' & rm & cm & Hl & Hs0 & Hs1 & Hwf & Htr
          & Hrl & Hcl & Hrm & Hcm).
  unfold freq_mask.
  destruct (np_random_uniform_cases F w) as [(_ & q & Hu & Hw) | (Hno & Hu)];
    [|rewrite (bind_raises _ _ _ _ _ Hu); right; now split].
  rewrite (bind_returns _ _ _ _ _ Hu). cbv zeta. rewrite Hw.
  pose proof (sampled_width_within F w) as Hwidth.
  set (f := sampled_width F w) in *. set (w1 := set_np_random _ w).
  destruct (random_randint_cases 0 (Z.of_nat (shape1 a) - f) w1)
    as [[Hlt Hr] | (f0 & Hf0 & Hr)].
  - rewrite (bind_raises _ _ _ _ _ Hr). unfold width_within in Hwidth.
    left. split; [reflexivity | lia].
  - rewrite (bind_returns _ _ _ _ _ Hr).
    unfold setitem_cols. simpl heap. rewrite Hl.
    unfold aug_progress. simpl.
    split; [exact Hnd|]. split; [lia|]. split; [exact Hpd|]. split; [lia|].
    exists (assign_cols a' f0 (f0 + f) 0%Q), rm, (cm ++ [EvSetCols feat f0 (f0 + f)]).
    rewrite lookup_insert_eq, length_app. simpl.
    split; [reflexivity|]. split; [exact Hs0|]. split; [exact Hs1|].
    split; [intros Ha; now apply wf_assign_cols, Hwf|].
    split; [rewrite Htr; now rewrite <- !app_assoc|].
    split; [exact Hrl|]. split; [lia|]. split; [exact Hrm|].
    apply Forall_app. split; [exact Hcm|]. constructor; [|constructor].
    simpl. split; [reflexivity|]. now replace (f0 + f - f0) with f by lia.
Qed.

Lemma tensor_size_run feat d a w :
  heap w !! feat = Some a ->
  tensor_size feat d w =
  (Returns (Z.of_nat (match d with O => shape0 a | _ => shape1 a end)), w).
Proof. intros Hl. unfold tensor_size. now rewrite Hl. Qed.

(** The whole call, by outcome. *)
Lemma spec_augment_run w feat a T F tn fn :
  heap w !! feat = Some a ->
  match spec_augment feat T F tn fn w with
  | (Returns l, w') =>
      l = feat /\ aug_progress w feat a T F (Z.to_nat tn) (Z.to_nat fn) w'
  | (Raises e, w') =>
      (e = empty_range /\
       (Z.of_nat (shape0 a) + 1 < T \/ Z.of_nat (shape1 a) + 1 < F)) \/
      (e = overflow_error /\ (float_fits T = false \/ float_fits F = false))
  end.
Proof.
  intros Hl. rewrite spec_augment_unfold.
  rewrite bind_run, (tensor_size_run feat 1 a w Hl).
  rewrite bind_run, (tensor_size_run feat 0 a w Hl).
  rewrite bind_run. unfold for_range at 1.
  pose proof (repeat_m_cases
                (fun k w' => aug_progress w feat a T F k 0 w')
                (fun e _ => (e = empty_range /\ Z.of_nat (shape0 a) + 1 < T) \/
                            (e = overflow_error /\ float_fits T = false))
                (time_mask feat T (Z.of_nat (shape0 a)))) as Ht.
  specialize (Ht (time_mask_step w feat a T F)
    (Z.to_nat tn) O w (aug_progress_init w feat a T F Hl)).
  simpl Nat.add in Ht.
  destruct (repeat_m (Z.to_nat tn) _ w) as [[[]|e] w1];
    [|destruct Ht as [[-> ?]|[-> ?]]; [left|right]; split; auto].
  rewrite bind_run. unfold for_range at 1.
  pose proof (repeat_m_cases
                (fun k w' => aug_progress w feat a T F (Z.to_nat tn) k w')
                (fun e _ => (e = empty_range /\ Z.of_nat (shape1 a) + 1 < F) \/
                            (e = overflow_error /\ float_fits F = false))
                (freq_mask feat F (Z.of_nat (shape1 a)))) as Hf.
  specialize (Hf (freq_mask_step w feat a T F (Z.to_nat tn))
    (Z.to_nat fn) O w1 Ht).
  simpl Nat.add in Hf.
  destruct (repeat_m (Z.to_nat fn) _ w1) as [[[]|e] w2];
    [|destruct Hf as [[-> ?]|[-> ?]]; [left|right]; split; auto].
  unfold ret. split; [reflexivity | exact Hf].
Qed.

Lemma spec_augment_returns_allocated w feat T F tn fn l w' :
  spec_augment feat T F tn fn w = (Returns l, w') ->
  exists a, heap w !! feat = Some a.
Proof.
  destruct (heap w !! feat) as [a|] eqn:Hl; [now exists a|].
  rewrite spec_augment_unfold, bind_run. unfold tensor_size at 1.
  rewrite Hl. discriminate.
Qed.

(** X1. [spec_augment] returns, with the reference it was given, whenever
    [T <= feat.size(0) + 1] and [F <= feat.size(1) + 1] and both bounds
    convert to a float: no sampled width can then exceed its dimension,
    whatever the seed and the mask counts. *)
Theorem spec_augment_returns_when_bounds_fit w feat a T F tn fn :
  heap w !! feat = Some a ->
  float_fits T = true -> float_fits F = true ->
  T <= Z.of_nat (shape0 a) + 1 ->
  F <= Z.of_nat (shape1 a) + 1 ->
  exists w', spec_augment feat T F tn fn w = (Returns feat, w').
Proof.
  intros Hl HfT HfF HT HF.
  pose proof (spec_augment_run w feat a T F tn fn Hl) as Hrun.
  destruct (spec_augment feat T F tn fn w) as [[l|e] w'].
  - destruct Hrun as [-> _]. now exists w'.
  - destruct Hrun as [[_ [?|?]] | [_ [?|?]]]; try lia; congruence.
Qed.

(** X2. On a tensor, [spec_augment] raises in two ways only: a
    [ValueError], from [random.randint] on an empty range, and only when
    [T > feat.size(0) + 1] or [F > feat.size(1) + 1]; and an [OverflowError],
    from [np.random.uniform], and only when [T] or [F] does not convert to a
    float.  The exceptions are given by their class, whatever their
    message. *)
Theorem spec_augment_failure_modes w feat a T F tn fn e w' :
  heap w !! feat = Some a ->
  spec_augment feat T F tn fn w = (Raises e, w') ->
  ((exists msg, e = ValueError msg) /\
   (Z.of_nat (shape0 a) + 1 < T \/ Z.of_nat (shape1 a) + 1 < F)) \/
  ((exists msg, e = OverflowError msg) /\
   (float_fits T = false \/ float_fits F = false)).
Proof.
  intros Hl Hrun. pose proof (spec_augment_run w feat a T F tn fn Hl) as H.
  rewrite Hrun in H.
  destruct H as [[-> H]|[-> H]]; [left|right]; (split; [|exact H]);
    eexists; reflexivity.
Qed.

(** X3. A call that returns has drawn exactly once from each generator per
    mask, [range(time_mask_num)] plus [range(freq_mask_num)] times in all,
    and has left both streams as they were; it returns its argument. *)
Theorem spec_augment_draws_per_mask w feat T F tn fn l w' :
  spec_augment feat T F tn fn w = (Returns l, w') ->
  l = feat /\
  draws (np_random w') = draws (np_random w) /\
  consumed (np_random w') = (consumed (np_random w) + Z.to_nat tn + Z.to_nat fn)%nat /\
  draws (py_random w') = draws (py_random w) /\
  consumed (py_random w') = (consumed (py_random w) + Z.to_nat tn + Z.to_nat fn)%nat.
Proof.
  intros Hrun.
  destruct (spec_augment_returns_allocated _ _ _ _ _ _ _ _ Hrun) as [a Hl].
  pose proof (spec_augment_run w feat a T F tn fn Hl) as H.
  rewrite Hrun in H. destruct H as (-> & Hnd & Hnc & Hpd & Hpc & _).
  auto.
Qed.

(** X4. A call that returns has assigned all its time masks first and then
    its frequency masks, [time_mask_num] and [freq_mask_num] of them (none for
    a negative count), and the width of each lies in [0, bound - 1] for a
    positive bound and is 0 for a zero bound. *)
Theorem spec_augment_mask_schedule w feat T F tn fn l w' :
  spec_augment feat T F tn fn w = (Returns l, w') ->
  exists rmasks cmasks,
    trace w' = trace w ++ rmasks ++ cmasks /\
    length rmasks = Z.to_nat tn /\ length cmasks = Z.to_nat fn /\
    Forall (row_mask feat T) rmasks /\ Forall (col_mask feat F) cmasks.
Proof.
  intros Hrun.
  destruct (spec_augment_returns_allocated _ _ _ _ _ _ _ _ Hrun) as [a Hl].
  pose proof (spec_augment_run w feat a T F tn fn Hl) as H.
  rewrite Hrun in H.
  destruct H as (_ & _ & _ & _ & _ & a' & rm & cm & _ & _ & _ & _ & Htr & Hrl
                 & Hcl & Hrm & Hcm).
  now exists rm, cm.
Qed.

(** X5. Masking keeps the tensor rectangular: if every row of [feat] has
    [feat.size(1)] entries before a call that returns, so it has after. *)
Theorem spec_augment_keeps_rectangular w feat a T F tn fn l w' :
  heap w !! feat = Some a ->
  wf_ndarray a ->
  spec_augment feat T F tn fn w = (Returns l, w') ->
  exists a', heap w' !! feat = Some a' /\ wf_ndarray a' /\
             shape0 a' = shape0 a /\ shape1 a' = shape1 a.
Proof.
  intros Hl Hwf Hrun. pose proof (spec_augment_run w feat a T F tn fn Hl) as H.
  rewrite Hrun in H.
  destruct H as (_ & _ & _ & _ & _ & a' & rm & cm & Hl' & Hs0 & Hs1 & Hwf' & _).
  exists a'. auto.
Qed.

Lemma in_slice_empty n s i : in_slice n s s i = false.
Proof.
  unfold in_slice.
  destruct (Z.leb_spec (slice_index n s) i), (Z.ltb_spec i (slice_index n s));
    simpl; auto; lia.
Qed.

Lemma assign_rows_empty a s v : assign_rows a s s v = a.
Proof.
  destruct a as [n m rs]. unfold assign_rows. simpl. f_equal.
  apply list_eq. intros i. rewrite list_lookup_imap.
  destruct (rs !! i); simpl; [|reflexivity]. now rewrite in_slice_empty.
Qed.

Lemma assign_cols_empty a s v : assign_cols a s s v = a.
Proof.
  destruct a as [n m rs]. unfold assign_cols. simpl. f_equal.
  apply list_eq. intros i. rewrite list_lookup_fmap.
  destruct (rs !! i) as [r|]; simpl; [|reflexivity]. f_equal.
  apply list_eq. intros j. rewrite list_lookup_imap.
  destruct (r !! j); simpl; [|reflexivity]. now rewrite in_slice_empty.
Qed.

Lemma sampled_width_small bound w : 0 <= bound <= 1 -> sampled_width bound w = 0.
Proof.
  intros Hb. pose proof (sampled_width_within bound w) as H.
  unfold width_within in H. lia.
Qed.

Lemma time_mask_small_keeps_heap feat T n (h : gmap loc ndarray) w :
  0 <= T <= 1 -> heap w = h -> heap (snd (time_mask feat T n w)) = h.
Proof.
  intros HT Hh. unfold time_mask.
  destruct (np_random_uniform_cases T w) as [(_ & q & Hu & Hw) | (_ & Hu)];
    [|now rewrite (bind_raises _ _ _ _ _ Hu)].
  rewrite (bind_returns _ _ _ _ _ Hu). cbv zeta.
  rewrite Hw, (sampled_width_small T w HT).
  set (w1 := set_np_random _ w).
  destruct (random_randint_cases 0 (n - 0) w1) as [[_ Hr] | (t0 & _ & Hr)].
  - now rewrite (bind_raises _ _ _ _ _ Hr).
  - rewrite (bind_returns _ _ _ _ _ Hr). unfold setitem_rows. simpl heap.
    destruct (heap w !! feat) as [a|] eqn:Hl; [|exact Hh].
    simpl. rewrite Z.add_0_r, assign_rows_empty, insert_id; assumption.
Qed.

Lemma freq_mask_small_keeps_heap feat F n (h : gmap loc ndarray) w :
  0 <= F <= 1 -> heap w = h -> heap (snd (freq_mask feat F n w)) = h.
Proof.
  intros HF Hh. unfold freq_mask.
  destruct (np_random_uniform_cases F w) as [(_ & q & Hu & Hw) | (_ & Hu)];
    [|now rewrite (bind_raises _ _ _ _ _ Hu)].
  rewrite (bind_returns _ _ _ _ _ Hu). cbv zeta.
  rewrite Hw, (sampled_width_small F w HF).
  set (w1 := set_np_random _ w).
  destruct (random_randint_cases 0 (n - 0) w1) as [[_ Hr] | (f0 & _ & Hr)].
  - now rewrite (bind_raises _ _ _ _ _ Hr).
  - rewrite (bind_returns _ _ _ _ _ Hr). unfold setitem_cols. simpl heap.
    destruct (heap w !! feat) as [a|] eqn:Hl; [|exact Hh].
    simpl. rewrite Z.add_0_r, assign_cols_empty, insert_id; assumption.
Qed.

(** X6. With both bounds 0 or 1 every sampled width is 0, so the call, which
    then always returns, changes no entry of any tensor however many masks
    are requested. *)
Theorem spec_augment_small_bounds_mask_nothing w feat a T F tn fn :
  heap w !! feat = Some a ->
  0 <= T <= 1 -> 0 <= F <= 1 ->
  exists w', spec_augment feat T F tn fn w = (Returns feat, w') /\ heap w' = heap w.
Proof.
  intros Hl HT HF.
  assert (Hheap : heap (snd (spec_augment feat T F tn fn w)) = heap w).
  { rewrite spec_augment_unfold.
    rewrite bind_run, (tensor_size_run feat 1 a w Hl).
    rewrite bind_run, (tensor_size_run feat 0 a w Hl).
    rewrite bind_run. unfold for_range at 1.
    pose proof (repeat_m_invariant (fun w' => heap w' = heap w) _
                  (fun w1 => time_mask_small_keeps_heap feat T (Z.of_nat (shape0 a))
                                (heap w) w1 HT)
                  (Z.to_nat tn) w eq_refl) as Ht.
    destruct (repeat_m (Z.to_nat tn) _ w) as [[[]|e] w1]; simpl in Ht; [|exact Ht].
    rewrite bind_run. unfold for_range at 1.
    pose proof (repeat_m_invariant (fun w' => heap w' = heap w) _
                  (fun w2 => freq_mask_small_keeps_heap feat F (Z.of_nat (shape1 a))
                                (heap w) w2 HF)
                  (Z.to_nat fn) w1 Ht) as Hf.
    destruct (repeat_m (Z.to_nat fn) _ w1) as [[[]|e] w2]; simpl in Hf; exact Hf. }
  pose proof (spec_augment_run w feat a T F tn fn Hl) as Hrun.
  pose proof (float_fits_53 T ltac:(pose proof (pow2_pos 53); lia)) as HfT.
  pose proof (float_fits_53 F ltac:(pose proof (pow2_pos 53); lia)) as HfF.
  destruct (spec_augment feat T F tn fn w) as [[l|e] w'].
  - destruct Hrun as [-> _]. now exists w'.
  - destruct Hrun as [[_ [?|?]] | [_ [?|?]]]; try lia; congruence.
Qed.

(** X7. Masking both axes in one call is masking time first and frequency
    second in two calls: [spec_augment(feat, T, F, n, m)] behaves as
    [spec_augment(spec_augment(feat, T, F, n, 0), T, F, 0, m)], in its result,
    its effects and its raises. *)
Theorem spec_augment_splits w feat a T F tn fn :
  heap w !! feat = Some a ->
  spec_augment feat T F tn fn w =
  (l <- spec_augment feat T F tn 0 ;; spec_augment l T F 0 fn) w.
Proof.
  intros Hl. rewrite (bind_run (spec_augment feat T F tn 0)).
  rewrite (spec_augment_unfold feat T F tn fn), (spec_augment_unfold feat T F tn 0).
  rewrite !(bind_run (tensor_size feat 1)), (tensor_size_run feat 1 a w Hl).
  rewrite !(bind_run (tensor_size feat 0)), (tensor_size_run feat 0 a w Hl).
  rewrite !(bind_run (for_range tn _)).
  assert (Hinv : aug_inv w feat a T F
            (snd (for_range tn (time_mask feat T (Z.of_nat (shape0 a))) w))).
  { unfold for_range.
    apply repeat_m_invariant; [apply time_mask_keeps | now apply aug_inv_init]. }
  destruct (for_range tn (time_mask feat T (Z.of_nat (shape0 a))) w)
    as [[[]|e] w1]; simpl in Hinv; [|reflexivity].
  destruct Hinv as (_ & _ & a' & masks & Hl' & _ & Hs0 & Hs1 & _).
  rewrite (bind_run (for_range 0 _)). unfold for_range at 2. simpl repeat_m.
  unfold ret at 2. unfold ret at 2.
  rewrite (spec_augment_unfold feat T F 0 fn).
  rewrite (bind_run (tensor_size feat 1)), (tensor_size_run feat 1 a' w1 Hl').
  rewrite (bind_run (tensor_size feat 0)), (tensor_size_run feat 0 a' w1 Hl').
  rewrite (bind_run (for_range 0 _)). unfold for_range at 2. simpl repeat_m.
  unfold ret at 2. rewrite Hs1. reflexivity.
Qed.


(** * Further properties of the extractors *)

Lemma same_store_refl w : same_store w w.
Proof. repeat split. exists []. now rewrite app_nil_r. Qed.

Lemma same_store_trans w1 w2 w3 :
  same_store w1 w2 -> same_store w2 w3 -> same_store w1 w3.
Proof.
  intros (Hf & Hh & Hn & Hp & e1 & Ht) (Hf' & Hh' & Hn' & Hp' & e2 & Ht').
  repeat split; try congruence.
  exists (e1 ++ e2). now rewrite Ht', Ht, app_assoc.
Qed.

Lemma same_store_emit ev w : same_store w (emit ev w).
Proof. repeat split. now exists [ev]. Qed.

Lemma traces_only_ret {A} (a : A) : traces_only (ret a).
Proof. intros w. apply same_store_refl. Qed.

Lemma traces_only_raise {A} e : traces_only (@raise A e).
Proof. intros w. apply same_store_refl. Qed.

Lemma traces_only_tell ev : traces_only (tell ev).
Proof. intros w. apply same_store_emit. Qed.

Lemma traces_only_bind {A B} (m : M A) (f : A -> M B) :
  traces_only m -> (forall a, traces_only (f a)) -> traces_only (bind m f).
Proof.
  intros Hm Hf w. rewrite bind_run. specialize (Hm w).
  destruct (m w) as [[a|e] w1]; simpl in Hm; [|exact Hm].
  eapply same_store_trans; [exact Hm | apply Hf].
Qed.

Lemma traces_only_try_except {A} (body : M A) handler :
  traces_only body -> (forall e, traces_only (handler e)) ->
  traces_only (try_except body handler).
Proof.
  intros Hb Hh w. unfold try_except. specialize (Hb w).
  destruct (body w) as [[a|e] w1]; simpl in Hb; [exact Hb|].
  eapply same_store_trans; [exact Hb | apply Hh].
Qed.

Lemma traces_only_extern {A} ev (r : exn + A) : traces_only (extern ev r).
Proof.
  apply traces_only_bind; [apply traces_only_tell|].
  intros _. destruct r; [apply traces_only_raise | apply traces_only_ret].
Qed.

Lemma traces_only_np_memmap filepath : traces_only (np_memmap filepath).
Proof. intros w. rewrite np_memmap_world. apply same_store_emit. Qed.

Lemma traces_only_lift {A} (r : exn + A) : traces_only (lift r).
Proof. destruct r; [apply traces_only_raise | apply traces_only_ret]. Qed.

Lemma traces_only_np_concatenate {A} (arrays : list (list A)) :
  traces_only (np_concatenate arrays).
Proof. destruct arrays; [apply traces_only_raise | apply traces_only_ret]. Qed.


Lemma py_slice_whole {A} (y : list A) : py_slice y 0 (Z.of_nat (length y)) = y.
Proof.
  unfold py_slice. rewrite !slice_index_id by lia.
  rewrite Z.sub_0_r, Nat2Z.id. simpl. apply firstn_all.
Qed.

Section ExtractorFurther.
Context `{External} {contract : Contract}.

Lemma traces_only_call_load filepath sr : traces_only (call_load filepath sr).
Proof. intros w. unfold call_load. apply traces_only_extern. Qed.

Lemma traces_only_strip_silence signal : traces_only (strip_silence signal).
Proof.
  apply traces_only_bind; [apply traces_only_extern|].
  intros ivs. apply traces_only_np_concatenate.
Qed.

Lemma traces_only_prepare (ds : bool) signal :
  traces_only (if ds then strip_silence signal else ret signal).
Proof. destruct ds; [apply traces_only_strip_silence | apply traces_only_ret]. Qed.

Lemma traces_only_melspectrogram_of_signal signal n_mels ds ir mt :
  traces_only (melspectrogram_of_signal signal n_mels ds ir mt).
Proof.
  apply traces_only_bind; [apply traces_only_prepare|]. intros s.
  apply traces_only_bind; [apply traces_only_extern|]. intros S.
  apply traces_only_bind.
  - destruct (String.eqb mt "log_mel");
      [apply traces_only_extern | apply traces_only_ret].
  - intros D. cbv zeta.
    apply traces_only_bind; [apply traces_only_lift|].
    intros tensor. apply traces_only_ret.
Qed.

Lemma traces_only_mfcc_of_signal signal ds ir :
  traces_only (mfcc_of_signal signal ds ir).
Proof.
  apply traces_only_bind; [apply traces_only_prepare|]. intros s.
  apply traces_only_bind; [apply traces_only_extern|]. intros S.
  cbv zeta. apply traces_only_bind; [apply traces_only_lift|].
  intros tensor. apply traces_only_ret.
Qed.

Lemma traces_only_load_pcm filepath :
  traces_only
    (try_except (pcm <- np_memmap filepath ;; ret (Some pcm))
       (fun _ => logger_info (filepath +:+ " Error Occur !!") ;;; ret None)).
Proof.
  apply traces_only_try_except.
  - apply traces_only_bind; [apply traces_only_np_memmap|].
    intros pcm. apply traces_only_ret.
  - intros _. apply traces_only_bind; [apply traces_only_tell|].
    intros _. apply traces_only_ret.
Qed.

(** X8. Neither extractor writes anything: whatever the arguments and the
    outcome, the file system, the tensors and both random generators are as
    before the call, and the trace has only been extended. *)
Theorem extractors_only_extend_the_trace filepath n_mels n_mfcc ds ir mt format :
  traces_only (get_librosa_melspectrogram filepath n_mels ds ir mt format) /\
  traces_only (get_librosa_mfcc filepath n_mfcc ds ir format).
Proof.
  split.
  - unfold get_librosa_melspectrogram.
    destruct (String.eqb format "pcm").
    + apply traces_only_bind; [apply traces_only_load_pcm|].
      intros [pcm|]; [apply traces_only_melspectrogram_of_signal
                     | apply traces_only_ret].
    + destruct (String.eqb format "wav"); [|apply traces_only_raise].
      apply traces_only_bind; [apply traces_only_call_load|].
      intros signal. apply traces_only_melspectrogram_of_signal.
  - unfold get_librosa_mfcc.
    destruct (String.eqb format "pcm").
    + apply traces_only_bind; [apply traces_only_load_pcm|].
      intros [pcm|]; [apply traces_only_mfcc_of_signal | apply traces_only_ret].
    + destruct (String.eqb format "wav"); [|apply traces_only_raise].
      apply traces_only_bind; [apply traces_only_call_load|].
      intros signal. apply traces_only_mfcc_of_signal.
Qed.

Lemma bind_ret_l {A B} (a : A) (f : A -> M B) w : bind (ret a) f w = f a w.
Proof. reflexivity. Qed.



(** X9. For a readable PCM file read without silence removal, the number of
    time steps of the returned matrix is fixed by the file size alone:
    [1 + (bytes // 2) // 160], one sample per two bytes and one frame per 160
    samples, for both extractors. *)
Theorem pcm_time_steps_from_file_size filepath n_mels n_mfcc ir mt w bs :
  readable_pcm w filepath bs ->
  (forall feat w',
     get_librosa_melspectrogram filepath n_mels false ir mt "pcm" w
       = (Returns (Some feat), w') ->
     Z.of_nat (shape0 feat) = 1 + Z.of_nat (length bs / 2) / 160) /\
  (forall feat w',
     get_librosa_mfcc filepath n_mfcc false ir "pcm" w = (Returns (Some feat), w') ->
     Z.of_nat (shape0 feat) = 1 + Z.of_nat (length bs / 2) / 160).
Proof.
  intros Hbs.
  assert (Hload : loaded filepath "pcm" w (map inject_Z (int16_le bs))
                    (emit (EvMemmap filepath) w)).
  { left. split; [reflexivity|]. now exists bs. }
  split; intros feat w' Hrun.
  - rewrite (get_librosa_melspectrogram_loaded _ _ _ _ _ _ _ _ _ Hload) in Hrun.
    apply melspectrogram_of_signal_shape in Hrun
      as (s & w1 & post & [= <- <-] & Hfr & _).
    now rewrite length_map, length_int16_le in Hfr.
  - rewrite (get_librosa_mfcc_loaded _ _ _ _ _ _ _ _ Hload) in Hrun.
    apply mfcc_of_signal_shape in Hrun as (s & w1 & [= <- <-] & _ & _ & Hfr & _).
    now rewrite length_map, length_int16_le in Hfr.
Qed.

(** X10. The two extractors are aligned in time: called on the same file with
    the same format and the same [del_silence], the mel-spectrogram and the
    MFCC matrix they return have the same number of time steps. *)
Theorem mel_and_mfcc_time_steps_agree
    filepath n_mels n_mfcc ds ir ir' mt format w fm wm fc wc :
  get_librosa_melspectrogram filepath n_mels ds ir mt format w
    = (Returns (Some fm), wm) ->
  get_librosa_mfcc filepath n_mfcc ds ir' format w = (Returns (Some fc), wc) ->
  shape0 fm = shape0 fc.
Proof.
  intros Hm Hc.
  apply get_librosa_melspectrogram_returns in Hm as (signal & w1 & Hload & Hm).
  apply get_librosa_mfcc_returns in Hc as (signal' & w1' & Hload' & Hc).
  destruct (loaded_functional _ _ _ _ _ _ _ Hload' Hload) as [-> ->].
  apply melspectrogram_of_signal_shape in Hm as (s & w2 & post & Hprep & Hfr & _).
  apply mfcc_of_signal_shape in Hc as (s' & w2' & Hprep' & _ & _ & Hfr' & _).
  rewrite Hprep in Hprep'. injection Hprep' as <- <-. lia.
Qed.

Lemma mfcc_of_signal_reverse signal ds w :
  mfcc_of_signal signal ds true w =
  (reverse_outcome (fst (mfcc_of_signal signal ds false w)),
   snd (mfcc_of_signal signal ds false w)).
Proof.
  unfold mfcc_of_signal. rewrite !bind_run.
  destruct ((if ds then strip_silence signal else ret signal) w)
    as [[s|e] w1]; cbv beta iota; [|reflexivity].
  rewrite !bind_run, !extern_run.
  destruct (librosa_mfcc s 16000 160 33 400 "hamming")
    as [e|S] eqn:E; cbv beta iota zeta; [reflexivity|].
  apply mfcc_shape in E as (Hwf & Hs0 & Hs1); [|lia].
  assert (Hframes : 0 <= Z.of_nat (length s) / 160)
    by (apply Z.div_pos; lia).
  rewrite (tensor_run true), (tensor_run false). simpl fst. simpl snd.
  f_equal. apply reversed_tensor; [auto | lia | lia].
Qed.

(** X11. [input_reverse] on the MFCC matrix: the call with
    [input_reverse=True] has the effects of the call with
    [input_reverse=False] and raises what it raises; where that call returns
    a matrix of two or more time steps it returns the same matrix with the
    time steps in the opposite order, and where that call returns a matrix of
    a single time step it raises the negative-stride [ValueError] of
    [torch.FloatTensor]. *)
Theorem mfcc_reversal filepath n_mfcc ds format w :
  get_librosa_mfcc filepath n_mfcc ds true format w =
  (reverse_outcome (fst (get_librosa_mfcc filepath n_mfcc ds false format w)),
   snd (get_librosa_mfcc filepath n_mfcc ds false format w)).
Proof.
  destruct (String.eqb_spec format "pcm") as [->|Hp].
  - destruct (np_memmap filepath w) as [[pcm|e] w1] eqn:Em.
    + rewrite !(mfcc_pcm_loaded _ _ _ _ _ _ _ Em). apply mfcc_of_signal_reverse.
    + now rewrite !(mfcc_pcm_failed _ _ _ _ _ _ _ Em).
  - destruct (String.eqb_spec format "wav") as [->|Hw].
    + rewrite !mfcc_wav.
      destruct (librosa_load (files w) filepath 16000); [reflexivity|].
      apply mfcc_of_signal_reverse.
    + now rewrite !(mfcc_other_format _ _ _ _ _ _ Hp Hw).
Qed.

(** X17. [input_reverse] on the mel-spectrogram, for a non-zero number of
    channels: the call with [input_reverse=True] has the effects of the call
    with [input_reverse=False] and raises what it raises; where that call
    returns a matrix of two or more time steps it returns the same matrix
    with the time steps in the opposite order, and where that call returns a
    matrix of a single time step it raises the negative-stride [ValueError]
    of [torch.FloatTensor]. *)
Theorem melspectrogram_reversal filepath n_mels ds mt format w :
  n_mels <> 0 ->
  get_librosa_melspectrogram filepath n_mels ds true mt format w =
  (reverse_outcome
     (fst (get_librosa_melspectrogram filepath n_mels ds false mt format w)),
   snd (get_librosa_melspectrogram filepath n_mels ds false mt format w)).
Proof.
  intros Hn.
  destruct (String.eqb_spec format "pcm") as [->|Hp].
  - destruct (np_memmap filepath w) as [[pcm|e] w1] eqn:Em.
    + rewrite !(melspectrogram_pcm_loaded _ _ _ _ _ _ _ _ Em).
      now apply melspectrogram_of_signal_reverse.
    + now rewrite !(melspectrogram_pcm_failed _ _ _ _ _ _ _ _ Em).
  - destruct (String.eqb_spec format "wav") as [->|Hw].
    + rewrite !melspectrogram_wav.
      destruct (librosa_load (files w) filepath 16000); [reflexivity|].
      now apply melspectrogram_of_signal_reverse.
    + now rewrite !(melspectrogram_other_format _ _ _ _ _ _ _ Hp Hw).
Qed.

(** X18. Every time step of the matrix [get_librosa_melspectrogram] returns
    has exactly [n_mels] entries, whatever the other arguments. *)
Theorem melspectrogram_channels filepath n_mels ds ir mt format w feat w' :
  get_librosa_melspectrogram filepath n_mels ds ir mt format w
    = (Returns (Some feat), w') ->
  Z.of_nat (shape1 feat) = n_mels /\
  Forall (fun step => Z.of_nat (length step) = n_mels) (rows feat) /\
  length (rows feat) = shape0 feat.
Proof.
  intros Hrun.
  apply get_librosa_melspectrogram_returns in Hrun as (signal & w1 & _ & Hrun).
  apply melspectrogram_of_signal_returns in Hrun
    as (s & w2 & S & D & post & _ & HS & HD & [= ->] & _ & _).
  apply melspectrogram_shape in HS as (HwfS & Hs0 & _).
  assert (HwfD : wf_ndarray D /\ shape0 D = shape0 S).
  { destruct (String.eqb mt "log_mel").
    - destruct HD as [HD _].
      apply amplitude_to_db_shape in HD as (? & _ & ?). auto.
    - destruct HD as [-> _]. auto. }
  destruct HwfD as [HwfD HsD].
  destruct (returned_shape D ir HwfD) as ([Hlen Hrows] & _ & Hs1).
  split; [lia|]. split; [|exact Hlen].
  eapply Forall_impl; [exact Hrows|].
  intros step Hstep. cbv beta in Hstep. rewrite Hstep, Hs1. lia.
Qed.

(** X12. When silence removal is on and [effects.split] reports no
    non-silent span, [np.concatenate] of the empty list raises a
    [ValueError], which neither extractor catches, on the [pcm] path either:
    the [try] covers the file read only. *)
Theorem no_span_raises filepath n_mels n_mfcc ir mt format w signal w1 :
  loaded filepath format w signal w1 ->
  librosa_split signal 30 = inr [] ->
  get_librosa_melspectrogram filepath n_mels true ir mt format w =
    (Raises (ValueError "need at least one array to concatenate"),
     emit (EvSplit signal 30) w1) /\
  get_librosa_mfcc filepath n_mfcc true ir format w =
    (Raises (ValueError "need at least one array to concatenate"),
     emit (EvSplit signal 30) w1).
Proof.
  intros Hload Hsp.
  rewrite (get_librosa_melspectrogram_loaded _ _ _ _ _ _ _ _ _ Hload).
  rewrite (get_librosa_mfcc_loaded _ _ _ _ _ _ _ _ Hload).
  unfold melspectrogram_of_signal, mfcc_of_signal, strip_silence.
  rewrite !bind_run, !extern_run, Hsp. split; reflexivity.
Qed.

(** X13. Once the file is loaded, an exception raised by the audio library
    reaches the caller unchanged, for [pcm] as for [wav], with the calls made
    so far on the trace: from the silence split when [del_silence] is set;
    from the feature computation itself, on the signal as loaded or on what
    silence removal left of it; and from the conversion to decibels of a
    [log_mel] spectrogram. *)
Theorem library_failures_propagate
    filepath n_mels n_mfcc (ds : bool) ir mt format w signal w1 e :
  loaded filepath format w signal w1 ->
  (librosa_split signal 30 = inl e ->
   get_librosa_melspectrogram filepath n_mels true ir mt format w =
     (Raises e, emit (EvSplit signal 30) w1) /\
   get_librosa_mfcc filepath n_mfcc true ir format w =
     (Raises e, emit (EvSplit signal 30) w1)) /\
  (forall s w2,
     (if ds then strip_silence signal else ret signal) w1 = (Returns s, w2) ->
     (librosa_melspectrogram s 16000 n_mels 400 160 "hamming" = inl e ->
      get_librosa_melspectrogram filepath n_mels ds ir mt format w =
        (Raises e, emit (EvMelspectrogram s 16000 n_mels 400 160 "hamming") w2)) /\
     (librosa_mfcc s 16000 160 33 400 "hamming" = inl e ->
      get_librosa_mfcc filepath n_mfcc ds ir format w =
        (Raises e, emit (EvMfcc s 16000 160 33 400 "hamming") w2)) /\
     (forall S,
        librosa_melspectrogram s 16000 n_mels 400 160 "hamming" = inr S ->
        librosa_amplitude_to_db S = inl e ->
        get_librosa_melspectrogram filepath n_mels ds ir "log_mel" format w =
          (Raises e,
           emit (EvAmplitudeToDb S)
             (emit (EvMelspectrogram s 16000 n_mels 400 160 "hamming") w2)))).
Proof.
  intros Hload.
  rewrite !(get_librosa_melspectrogram_loaded _ _ _ _ _ _ _ _ _ Hload).
  rewrite !(get_librosa_mfcc_loaded _ _ _ _ _ _ _ _ Hload).
  unfold melspectrogram_of_signal, mfcc_of_signal.
  split.
  - intros He. unfold strip_silence.
    rewrite !bind_run, !extern_run, He. split; reflexivity.
  - intros s w2 Hprep. rewrite !bind_run, Hprep.
    split; [|split].
    + intros He. rewrite bind_run, extern_run, He. reflexivity.
    + intros He. rewrite bind_run, extern_run, He. reflexivity.
    + intros S HS He. rewrite bind_run, extern_run, HS. cbv beta iota.
      rewrite bind_run.
      change (String.eqb "log_mel" "log_mel") with true. cbv iota.
      rewrite extern_run, He. reflexivity.
Qed.

(** X14. A PCM file that is missing, empty, or of an odd number of bytes is
    unreadable: both extractors log the failure and return [None]. *)
Theorem bad_pcm_file_gives_none filepath n_mels n_mfcc ds ir mt w :
  files w !! filepath = None \/
  files w !! filepath = Some [] \/
  (exists bs, files w !! filepath = Some bs /\ Nat.odd (length bs) = true) ->
  let logged :=
    emit (EvLoggerInfo (filepath +:+ " Error Occur !!"))
         (emit (EvMemmap filepath) w) in
  get_librosa_melspectrogram filepath n_mels ds ir mt "pcm" w
    = (Returns None, logged) /\
  get_librosa_mfcc filepath n_mfcc ds ir "pcm" w = (Returns None, logged).
Proof.
  intros Hbad logged.
  assert (exists e, np_memmap filepath w = (Raises e, emit (EvMemmap filepath) w))
    as [e Hm].
  { unfold np_memmap. rewrite bind_run. unfold tell. cbv beta iota. simpl files.
    destruct Hbad as [-> | [-> | (bs & -> & Hodd)]].
    - eexists. reflexivity.
    - eexists. reflexivity.
    - destruct (Nat.eqb (length bs) 0); [eexists; reflexivity|].
      rewrite Hodd. eexists. reflexivity. }
  split.
  - exact (melspectrogram_pcm_failed filepath n_mels ds ir mt w e _ Hm).
  - exact (mfcc_pcm_failed filepath n_mfcc ds ir w e _ Hm).
Qed.

(** X15. Only the exact string [log_mel] selects the decibel scale: with any
    other [mel_type] the call is the same whatever the string is, and when it
    returns, the last thing it asked of the library is the mel-spectrogram
    itself, which it returns unconverted. *)
Theorem other_mel_types_are_linear filepath n_mels ds ir mt format w :
  mt <> "log_mel" ->
  (forall mt', mt' <> "log_mel" ->
     get_librosa_melspectrogram filepath n_mels ds ir mt' format w =
     get_librosa_melspectrogram filepath n_mels ds ir mt format w) /\
  (forall feat w',
     get_librosa_melspectrogram filepath n_mels ds ir mt format w
       = (Returns (Some feat), w') ->
     exists y S,
       last (trace w') = Some (EvMelspectrogram y 16000 n_mels 400 160 "hamming") /\
       librosa_melspectrogram y 16000 n_mels 400 160 "hamming" = inr S /\
       feat = as_float32 (np_swapaxes (if ir then flip_axis1 S else S))).
Proof.
  intros Hmt. apply String.eqb_neq in Hmt. split.
  - intros mt' Hmt'. apply String.eqb_neq in Hmt'.
    unfold get_librosa_melspectrogram, melspectrogram_of_signal.
    now rewrite Hmt, Hmt'.
  - intros feat w' Hrun.
    apply get_librosa_melspectrogram_returns in Hrun as (signal & w1 & _ & Hrun).
    apply melspectrogram_of_signal_returns in Hrun
      as (s & w2 & S & D & post & _ & HS & HD & [= ->] & _ & Htr).
    rewrite Hmt in HD. destruct HD as [-> ->].
    exists s, S. split; [|split; [exact HS | reflexivity]].
    rewrite Htr. apply last_snoc.
Qed.

Lemma melspectrogram_of_signal_value signal n_mels ir mt w w' :
  fst (melspectrogram_of_signal signal n_mels false ir mt w) =
  fst (melspectrogram_of_signal signal n_mels false ir mt w').
Proof.
  unfold melspectrogram_of_signal. cbv iota. rewrite !bind_ret_l.
  rewrite !bind_run, !extern_run.
  destruct (librosa_melspectrogram signal 16000 n_mels 400 160 "hamming")
    as [e|S]; cbv beta iota; [reflexivity|].
  rewrite !bind_run.
  destruct (String.eqb mt "log_mel").
  - rewrite !extern_run.
    destruct (librosa_amplitude_to_db S) as [e|D]; cbv beta iota zeta;
      [reflexivity|].
    now rewrite !tensor_run.
  - unfold ret at 1 3. cbv beta iota zeta. now rewrite !tensor_run.
Qed.

Lemma mfcc_of_signal_value signal ir w w' :
  fst (mfcc_of_signal signal false ir w) = fst (mfcc_of_signal signal false ir w').
Proof.
  unfold mfcc_of_signal. cbv iota. rewrite !bind_ret_l.
  rewrite !bind_run, !extern_run.
  destruct (librosa_mfcc signal 16000 160 33 400 "hamming") as [e|S];
    cbv beta iota zeta; [reflexivity|].
  now rewrite !tensor_run.
Qed.

(** X16. Silence removal is without effect on a signal that has no silence:
    when [effects.split] reports the whole signal as its one span, both
    extractors return (or raise) with [del_silence=True] exactly what they do
    with [del_silence=False]. *)
Theorem silence_removal_without_silence
    filepath n_mels n_mfcc ir mt format w signal w1 :
  loaded filepath format w signal w1 ->
  librosa_split signal 30 = inr [(0, Z.of_nat (length signal))] ->
  fst (get_librosa_melspectrogram filepath n_mels true ir mt format w) =
  fst (get_librosa_melspectrogram filepath n_mels false ir mt format w) /\
  fst (get_librosa_mfcc filepath n_mfcc true ir format w) =
  fst (get_librosa_mfcc filepath n_mfcc false ir format w).
Proof.
  intros Hload Hsp.
  rewrite !(get_librosa_melspectrogram_loaded _ _ _ _ _ _ _ _ _ Hload).
  rewrite !(get_librosa_mfcc_loaded _ _ _ _ _ _ _ _ Hload).
  assert (Hstrip : strip_silence signal w1 =
                   (Returns signal, emit (EvSplit signal 30) w1)).
  { unfold strip_silence. rewrite bind_run, extern_run, Hsp. simpl.
    now rewrite py_slice_whole, app_nil_r. }
  split.
  - rewrite <- (melspectrogram_of_signal_value signal n_mels ir mt
                  (emit (EvSplit signal 30) w1) w1).
    unfold melspectrogram_of_signal.
    now rewrite (bind_returns _ _ _ _ _ Hstrip).
  - rewrite <- (mfcc_of_signal_value signal ir (emit (EvSplit signal 30) w1) w1).
    unfold mfcc_of_signal.
    now rewrite (bind_returns _ _ _ _ _ Hstrip).
Qed.

End ExtractorFurther.

(** * The further properties on the sample worlds *)

Lemma spec_augment_returns_when_bounds_fit_witness :
  exists w', spec_augment 1%positive 4 3 2 2 sample_world = (Returns 1%positive, w').
Proof.
  apply (spec_augment_returns_when_bounds_fit sample_world 1%positive sample_tensor
           4 3 2 2 eq_refl eq_refl eq_refl); simpl; lia.
Defined.

Lemma spec_augment_failure_modes_witness :
  exists e w',
    spec_augment 1%positive 70 20 2 2 sample_world = (Raises e, w') /\
    (((exists msg, e = ValueError msg) /\
      (Z.of_nat (shape0 sample_tensor) + 1 < 70 \/
       Z.of_nat (shape1 sample_tensor) + 1 < 20)) \/
     ((exists msg, e = OverflowError msg) /\
      (float_fits 70 = false \/ float_fits 20 = false))).
Proof.
  eexists _, _. split; [reflexivity|].
  exact (spec_augment_failure_modes sample_world 1%positive sample_tensor
           70 20 2 2 _ _ eq_refl eq_refl).
Defined.

Example spec_augment_bound_outside_float :
  fst (spec_augment 1%positive (10 ^ 400) 3 2 2 sample_world) =
    Raises (OverflowError "int too large to convert to float") /\
  fst (spec_augment 1%positive (- 10 ^ 400) 3 2 2 sample_world) =
    Raises (OverflowError "int too large to convert to float") /\
  fst (spec_augment 1%positive (10 ^ 400) 3 0 2 sample_world) =
    Returns 1%positive.
Proof. vm_compute. repeat split; reflexivity. Qed.

Lemma spec_augment_draws_per_mask_witness :
  exists l w',
    spec_augment 1%positive 4 3 2 1 sample_world = (Returns l, w') /\
    l = 1%positive /\
    consumed (np_random w') = 3%nat /\ consumed (py_random w') = 3%nat.
Proof.
  eexists _, _. split; [reflexivity|].
  destruct (spec_augment_draws_per_mask sample_world 1%positive 4 3 2 1 _ _ eq_refl)
    as (Hl & _ & Hn & _ & Hp).
  split; [exact Hl|]. split; [exact Hn | exact Hp].
Defined.

Lemma spec_augment_mask_schedule_witness :
  exists l w' rmasks cmasks,
    spec_augment 1%positive 4 3 2 1 sample_world = (Returns l, w') /\
    trace w' = trace sample_world ++ rmasks ++ cmasks /\
    length rmasks = 2%nat /\ length cmasks = 1%nat /\
    Forall (row_mask 1%positive 4) rmasks /\ Forall (col_mask 1%positive 3) cmasks.
Proof.
  destruct (spec_augment_mask_schedule sample_world 1%positive 4 3 2 1
              1%positive
              (snd (spec_augment 1%positive 4 3 2 1 sample_world)) eq_refl)
    as (rm & cm & H).
  eexists _, _, rm, cm. split; [reflexivity | exact H].
Defined.

Lemma spec_augment_keeps_rectangular_witness :
  exists l w' a',
    spec_augment 1%positive 4 3 2 1 sample_world = (Returns l, w') /\
    heap w' !! 1%positive = Some a' /\ wf_ndarray a'.
Proof.
  assert (Hwf : wf_ndarray sample_tensor).
  { split; [reflexivity|]. repeat constructor. }
  destruct (spec_augment_keeps_rectangular sample_world 1%positive sample_tensor
              4 3 2 1 1%positive
              (snd (spec_augment 1%positive 4 3 2 1 sample_world))
              eq_refl Hwf eq_refl)
    as (a' & Hl & Hwf' & _).
  eexists _, _, a'. split; [reflexivity|]. split; [exact Hl | exact Hwf'].
Defined.

Lemma spec_augment_small_bounds_mask_nothing_witness :
  exists w',
    spec_augment 1%positive 1 1 5 5 sample_world = (Returns 1%positive, w') /\
    heap w' = heap sample_world.
Proof.
  apply (spec_augment_small_bounds_mask_nothing sample_world 1%positive sample_tensor
           1 1 5 5 eq_refl); lia.
Defined.

Lemma spec_augment_splits_witness :
  spec_augment 1%positive 4 3 2 1 sample_world =
  (l <- spec_augment 1%positive 4 3 2 0 ;; spec_augment l 4 3 0 1) sample_world.
Proof.
  exact (spec_augment_splits sample_world 1%positive sample_tensor 4 3 2 1 eq_refl).
Defined.

Lemma pcm_time_steps_from_file_size_witness :
  exists feat w',
    get_librosa_melspectrogram (H:=reference) "a.pcm" 3 false true "log_mel" "pcm"
      sample_world = (Returns (Some feat), w') /\
    Z.of_nat (shape0 feat) = 1 + Z.of_nat (length sample_pcm / 2) / 160.
Proof.
  eexists _, _. split; [reflexivity|].
  refine (proj1 (pcm_time_steps_from_file_size (H:=reference)
                   (contract:=reference_contract)
                   "a.pcm" 3 33 true "log_mel" sample_world sample_pcm _)
            _ _ eq_refl).
  split; [reflexivity|]. split; [discriminate | reflexivity].
Defined.

Lemma mel_and_mfcc_time_steps_agree_witness :
  exists fm wm fc wc,
    get_librosa_melspectrogram (H:=reference) "a.pcm" 3 false true "log_mel" "pcm"
      sample_world = (Returns (Some fm), wm) /\
    get_librosa_mfcc (H:=reference) "a.pcm" 33 false false "pcm" sample_world
      = (Returns (Some fc), wc) /\
    shape0 fm = shape0 fc.
Proof.
  eexists _, _, _, _. split; [reflexivity|]. split; [reflexivity|].
  exact (mel_and_mfcc_time_steps_agree (H:=reference) (contract:=reference_contract)
           "a.pcm" 3 33 false true false "log_mel" "pcm" sample_world
           _ _ _ _ eq_refl eq_refl).
Defined.

Lemma mfcc_reversal_witness :
  get_librosa_mfcc (H:=reference) "a.pcm" 33 false true "pcm" sample_world =
  (reverse_outcome
     (fst (get_librosa_mfcc (H:=reference) "a.pcm" 33 false false "pcm" sample_world)),
   snd (get_librosa_mfcc (H:=reference) "a.pcm" 33 false false "pcm" sample_world)).
Proof.
  exact (mfcc_reversal (H:=reference) (contract:=reference_contract)
           "a.pcm" 33 false "pcm" sample_world).
Defined.

Example mfcc_one_frame :
  fst (get_librosa_mfcc (H:=reference) "loud.pcm" 33 false false "pcm" odd_world) =
    Returns (Some (mk_ndarray 1 33 [map (fun m => inject_Z (Z.of_nat m)) (seq 0 33)])) /\
  fst (get_librosa_mfcc (H:=reference) "loud.pcm" 33 false true "pcm" odd_world) =
    Raises (ValueError "At least one stride in the given numpy array is negative").
Proof. vm_compute. split; reflexivity. Qed.

Lemma melspectrogram_reversal_witness :
  get_librosa_melspectrogram (H:=reference) "a.pcm" 3 false true "log_mel" "pcm"
    sample_world =
  (reverse_outcome
     (fst (get_librosa_melspectrogram (H:=reference) "a.pcm" 3 false false "log_mel"
             "pcm" sample_world)),
   snd (get_librosa_melspectrogram (H:=reference) "a.pcm" 3 false false "log_mel"
          "pcm" sample_world)).
Proof.
  apply (melspectrogram_reversal (H:=reference) (contract:=reference_contract)
           "a.pcm" 3 false "log_mel" "pcm" sample_world).
  discriminate.
Defined.

Lemma melspectrogram_channels_witness :
  exists feat w',
    get_librosa_melspectrogram (H:=reference) "a.pcm" 3 false true "log_mel" "pcm"
      sample_world = (Returns (Some feat), w') /\
    Z.of_nat (shape1 feat) = 3 /\
    Forall (fun step => Z.of_nat (length step) = 3) (rows feat) /\
    length (rows feat) = shape0 feat.
Proof.
  eexists _, _. split; [reflexivity|].
  exact (melspectrogram_channels (H:=reference) (contract:=reference_contract)
           "a.pcm" 3 false true "log_mel" "pcm" sample_world _ _ eq_refl).
Defined.

Lemma no_span_raises_witness :
  get_librosa_melspectrogram (H:=spanless) "a.pcm" 3 true true "log_mel" "pcm"
    sample_world =
    (Raises (ValueError "need at least one array to concatenate"),
     emit (EvSplit (map inject_Z (int16_le sample_pcm)) 30)
          (emit (EvMemmap "a.pcm") sample_world)).
Proof.
  refine (proj1 (no_span_raises (H:=spanless) "a.pcm" 3 33 true "log_mel" "pcm"
                   sample_world (map inject_Z (int16_le sample_pcm))
                   (emit (EvMemmap "a.pcm") sample_world) _ eq_refl)).
  left. split; [reflexivity|]. exists sample_pcm.
  split; [|split; reflexivity].
  split; [reflexivity|]. split; [discriminate | reflexivity].
Defined.

Lemma library_failures_propagate_witness :
  get_librosa_melspectrogram (H:=faulty) "a.pcm" 3 true true "log_mel" "pcm"
    sample_world =
    (Raises (RuntimeError "split"),
     emit (EvSplit (map inject_Z (int16_le sample_pcm)) 30)
          (emit (EvMemmap "a.pcm") sample_world)) /\
  get_librosa_melspectrogram (H:=faulty) "a.pcm" 3 false true "log_mel" "pcm"
    sample_world =
    (Raises (RuntimeError "melspectrogram"),
     emit (EvMelspectrogram (map inject_Z (int16_le sample_pcm)) 16000 3 400 160
             "hamming")
          (emit (EvMemmap "a.pcm") sample_world)) /\
  get_librosa_mfcc (H:=faulty_features) "a.pcm" 33 true true "pcm" sample_world =
    (Raises (RuntimeError "mfcc"),
     emit (EvMfcc [inject_Z 4660; inject_Z (-1)] 16000 160 33 400 "hamming")
          (emit (EvSplit (map inject_Z (int16_le sample_pcm)) 30)
             (emit (EvMemmap "a.pcm") sample_world))) /\
  get_librosa_melspectrogram (H:=faulty_features) "a.pcm" 3 true true "log_mel" "pcm"
    sample_world =
    (Raises (RuntimeError "amplitude_to_db"),
     emit (EvAmplitudeToDb (mk_ndarray 3 1 [[0%Q]; [1%Q]; [2%Q]]))
          (emit (EvMelspectrogram [inject_Z 4660; inject_Z (-1)] 16000 3 400 160
                   "hamming")
             (emit (EvSplit (map inject_Z (int16_le sample_pcm)) 30)
                (emit (EvMemmap "a.pcm") sample_world)))).
Proof.
  assert (Hload : forall E : External,
            loaded (H:=E) "a.pcm" "pcm" sample_world
              (map inject_Z (int16_le sample_pcm))
              (emit (EvMemmap "a.pcm") sample_world)).
  { intros E. left. split; [reflexivity|]. exists sample_pcm.
    split; [|split; reflexivity].
    split; [reflexivity|]. split; [discriminate | reflexivity]. }
  split; [|split; [|split]].
  - exact (proj1 (proj1 (library_failures_propagate (H:=faulty) "a.pcm" 3 33 false
                           true "log_mel" "pcm" sample_world _ _
                           (RuntimeError "split") (Hload faulty)) eq_refl)).
  - exact (proj1 (proj2 (library_failures_propagate (H:=faulty) "a.pcm" 3 33 false
                           true "log_mel" "pcm" sample_world _ _
                           (RuntimeError "melspectrogram") (Hload faulty))
                    _ _ eq_refl) eq_refl).
  - exact (proj1 (proj2 (proj2 (library_failures_propagate (H:=faulty_features)
                           "a.pcm" 3 33 true true "log_mel" "pcm" sample_world _ _
                           (RuntimeError "mfcc") (Hload faulty_features))
                    [inject_Z 4660; inject_Z (-1)]
                    (emit (EvSplit (map inject_Z (int16_le sample_pcm)) 30)
                       (emit (EvMemmap "a.pcm") sample_world))
                    eq_refl)) eq_refl).
  - exact (proj2 (proj2 (proj2 (library_failures_propagate (H:=faulty_features)
                           "a.pcm" 3 33 true true "log_mel" "pcm" sample_world _ _
                           (RuntimeError "amplitude_to_db") (Hload faulty_features))
                    [inject_Z 4660; inject_Z (-1)]
                    (emit (EvSplit (map inject_Z (int16_le sample_pcm)) 30)
                       (emit (EvMemmap "a.pcm") sample_world))
                    eq_refl))
             (mk_ndarray 3 1 [[0%Q]; [1%Q]; [2%Q]]) eq_refl eq_refl).
Defined.

Lemma bad_pcm_file_gives_none_witness :
  fst (get_librosa_melspectrogram (H:=reference) "gone.pcm" 80 false true "log_mel"
         "pcm" odd_world) = Returns None /\
  fst (get_librosa_melspectrogram (H:=reference) "empty.pcm" 80 false true "log_mel"
         "pcm" odd_world) = Returns None /\
  fst (get_librosa_mfcc (H:=reference) "odd.pcm" 33 false true "pcm" odd_world)
    = Returns None.
Proof.
  split; [|split].
  - rewrite (proj1 (bad_pcm_file_gives_none (H:=reference) "gone.pcm" 80 33 false true
                      "log_mel" odd_world (or_introl eq_refl))).
    reflexivity.
  - rewrite (proj1 (bad_pcm_file_gives_none (H:=reference) "empty.pcm" 80 33 false true
                      "log_mel" odd_world (or_intror (or_introl eq_refl)))).
    reflexivity.
  - rewrite (proj2 (bad_pcm_file_gives_none (H:=reference) "odd.pcm" 80 33 false true
                      "log_mel" odd_world
                      (or_intror (or_intror
                         (ex_intro _ [Byte.x01] (conj eq_refl eq_refl)))))).
    reflexivity.
Defined.

Lemma other_mel_types_are_linear_witness :
  get_librosa_melspectrogram (H:=reference) "a.pcm" 3 false true "Log_Mel" "pcm"
    sample_world =
  get_librosa_melspectrogram (H:=reference) "a.pcm" 3 false true "mel" "pcm"
    sample_world.
Proof.
  apply (proj1 (other_mel_types_are_linear (H:=reference) "a.pcm" 3 false true "mel"
                  "pcm" sample_world ltac:(discriminate)) "Log_Mel").
  discriminate.
Defined.

Lemma silence_removal_without_silence_witness :
  fst (get_librosa_melspectrogram (H:=reference) "loud.pcm" 3 true false "log_mel"
         "pcm" odd_world) =
  fst (get_librosa_melspectrogram (H:=reference) "loud.pcm" 3 false false "log_mel"
         "pcm" odd_world).
Proof.
  refine (proj1 (silence_removal_without_silence (H:=reference) "loud.pcm" 3 33 false
                   "log_mel" "pcm" odd_world
                   (map inject_Z (int16_le [Byte.x34; Byte.x12; Byte.xff; Byte.xff]))
                   (emit (EvMemmap "loud.pcm") odd_world) _ eq_refl)).
  left. split; [reflexivity|]. exists [Byte.x34; Byte.x12; Byte.xff; Byte.xff].
  split; [|split; reflexivity].
  split; [reflexivity|]. split; [discriminate | reflexivity].
Defined.
